(** * E-commerce analytics dashboard: the load / unify / filter / aggregate
    pipeline of [ecommerce_dashboard.py], embedded in Rocq.

    A pandas DataFrame is a list of rows (row order is the frame's order), a
    column that may hold a missing value is an [option], and a float64 column
    is a [float64] below: an exact rational, one of the two infinities, or
    NaN.  This is the exact-arithmetic reading of the float columns: finite
    values are exact rationals, with no rounding error, no overflow and no
    sign of zero.  Where a statement depends on one of these, the code is
    taken on binary64 itself ([profit_margin_f64], on the primitive floats)
    or the value the library computes is left open
    ([customer_metrics_with]). *)

From Stdlib Require Import Floats.
From Stdlib Require Import QArith Qround ZArith Lia Lqa String Ascii.
From stdpp Require Import base list strings sorting.

Local Open Scope Z_scope.

(** ** float64 values *)

Inductive float64 : Type :=
| Fin (q : Q)
| PosInf
| NegInf
| NaN.

(** [pd.isna]: NaN is the missing value of a float column; infinities are
    not missing. *)
Definition isna (x : float64) : bool :=
  match x with NaN => true | _ => false end.

Definition inf_of_sign (c : comparison) : float64 :=
  match c with Eq => NaN | Gt => PosInf | Lt => NegInf end.

Definition fneg (x : float64) : float64 :=
  match x with
  | Fin q => Fin (- q)
  | PosInf => NegInf
  | NegInf => PosInf
  | NaN => NaN
  end.

Definition fadd (x y : float64) : float64 :=
  match x, y with
  | NaN, _ | _, NaN => NaN
  | Fin a, Fin b => Fin (a + b)
  | PosInf, NegInf | NegInf, PosInf => NaN
  | PosInf, _ | _, PosInf => PosInf
  | NegInf, _ | _, NegInf => NegInf
  end.

Definition fsub (x y : float64) : float64 := fadd x (fneg y).

Definition fsign (x : float64) : comparison :=
  match x with
  | Fin q => (q ?= 0)%Q
  | PosInf => Gt
  | NegInf => Lt
  | NaN => Eq
  end.

Definition sign_mul (a b : comparison) : comparison :=
  match a, b with
  | Eq, _ | _, Eq => Eq
  | Gt, c => c
  | Lt, c => CompOpp c
  end.

Definition fmul (x y : float64) : float64 :=
  match x, y with
  | NaN, _ | _, NaN => NaN
  | Fin a, Fin b => Fin (a * b)
  | _, _ => inf_of_sign (sign_mul (fsign x) (fsign y))
  end.

(** IEEE division: a finite nonzero value over zero is an infinity with the
    sign of the numerator, 0/0 and inf/inf are NaN, finite over inf is 0. *)
Definition fdiv (x y : float64) : float64 :=
  match x, y with
  | NaN, _ | _, NaN => NaN
  | Fin a, Fin b =>
      if Qeq_bool b 0 then inf_of_sign (a ?= 0)%Q else Fin (a / b)
  | Fin _, _ => Fin 0
  | _, Fin b =>
      if Qeq_bool b 0 then x else inf_of_sign (sign_mul (fsign x) (fsign y))
  | _, _ => NaN
  end.

(** [x >= y] on floats: every comparison with NaN is False. *)
Definition fge (x y : float64) : bool :=
  match x, y with
  | NaN, _ | _, NaN => false
  | Fin a, Fin b => Qle_bool b a
  | PosInf, _ => true
  | _, NegInf => true
  | _, _ => false
  end.

(** Equality of float values up to the representation of the rational. *)
Definition feq (x y : float64) : Prop :=
  match x, y with
  | Fin a, Fin b => (a == b)%Q
  | PosInf, PosInf | NegInf, NegInf | NaN, NaN => True
  | _, _ => False
  end.

(** [numpy.round(x, 2)] in exact arithmetic: scale by 100, round half to
    even, scale back.  On binary64 the scaling and the sum it is applied to
    are themselves rounded, so that the code's result differs from this one
    by 0.01 on a value within rounding error of half a cent (the float sum
    of 0.1, 0.1, 0.1, 0.1 and 0.175 is below 0.575 and is rounded to 0.57,
    the exact sum to 0.58); the two agree on multiples of 0.01. *)
Definition round_half_even (q : Q) : Z :=
  let f := Qfloor q in
  match ((q - inject_Z f) ?= 1 # 2)%Q with
  | Lt => f
  | Gt => f + 1
  | Eq => if Z.even f then f else f + 1
  end.

Definition round2 (q : Q) : Q := (inject_Z (round_half_even (q * 100)) / 100)%Q.

Definition fround2 (x : float64) : float64 :=
  match x with Fin q => Fin (round2 q) | _ => x end.

Fixpoint Qsum (l : list Q) : Q :=
  match l with
  | [] => 0%Q
  | x :: r => (x + Qsum r)%Q
  end.

(** [Series.mean]: [the_sum / count if count > 0 else nan]. *)
Definition mean (l : list Q) : float64 :=
  match l with
  | [] => NaN
  | _ => fdiv (Fin (Qsum l)) (Fin (inject_Z (Z.of_nat (length l))))
  end.

(** ** Python strings *)

(** A [str] is a [string] whose characters are the code points 0..255.
    [str.isspace] on that range. *)
Definition isspace (c : ascii) : bool :=
  let n := nat_of_ascii c in
  ((9 <=? n) && (n <=? 13) || (28 <=? n) && (n <=? 32)
   || (n =? 133) || (n =? 160))%nat.

Fixpoint lstrip (s : string) : string :=
  match s with
  | EmptyString => EmptyString
  | String c r => if isspace c then lstrip r else s
  end.

Fixpoint rstrip (s : string) : string :=
  match s with
  | EmptyString => EmptyString
  | String c r =>
      match rstrip r with
      | EmptyString => if isspace c then EmptyString else String c EmptyString
      | r' => String c r'
      end
  end.

(** [s.strip()] *)
Definition strip (s : string) : string := rstrip (lstrip s).

(** [sep in s] *)
Fixpoint contains (sep s : string) : bool :=
  String.prefix sep s ||
  match s with
  | EmptyString => false
  | String _ r => contains sep r
  end.

(** [s.split(sep)] for a non-empty [sep]: scan left to right; at an
    occurrence of [sep] close the current piece and skip the separator.
    [skip] counts the characters of a matched separator still to pass,
    [cur] is the piece being read. *)
Fixpoint split_go (sep s : string) (skip : nat) (cur : string) : list string :=
  match s with
  | EmptyString => [cur]
  | String c r =>
      match skip with
      | S k => split_go sep r k cur
      | O =>
          if String.prefix sep s
          then cur :: split_go sep r (String.length sep - 1) EmptyString
          else split_go sep r 0 (cur +:+ String c EmptyString)
      end
  end.

Definition split (sep s : string) : list string := split_go sep s 0 EmptyString.

(** [str(x)] of a cell of an object column: the string itself, or "nan" for
    the missing value. *)
Definition str (x : option string) : string :=
  match x with Some s => s | None => "nan" end.

(** The lambda applied to [item_dim["desc"]]:
    [x.split(" - ")[0].strip() if pd.notna(x) and " - " in x
     else str(x).strip()] *)
Definition main_category_of (x : option string) : string :=
  match x with
  | Some s =>
      if contains " - " s
      then strip (hd EmptyString (split " - " s))
      else strip (str x)
  | None => strip (str x)
  end.

(** The words of the specification about [main_category]: [p] is the part
    of [s] before the first occurrence of [sep]; [t] is [s] without its
    surrounding whitespace. *)
Definition occurs (sep s : string) : Prop :=
  exists p r, s = p +:+ sep +:+ r.

Definition before_first (sep s p : string) : Prop :=
  (exists r, s = p +:+ sep +:+ r)
  /\ forall p' r', s = p' +:+ sep +:+ r' ->
       (String.length p <= String.length p')%nat.

Fixpoint all_space (s : string) : bool :=
  match s with
  | EmptyString => true
  | String c r => isspace c && all_space r
  end.

Definition first_char (s : string) : option ascii :=
  match s with
  | EmptyString => None
  | String c _ => Some c
  end.

Fixpoint last_char (s : string) : option ascii :=
  match s with
  | EmptyString => None
  | String c r =>
      match last_char r with
      | Some d => Some d
      | None => Some c
      end
  end.

Definition not_space (c : option ascii) : Prop :=
  match c with
  | Some c => isspace c = false
  | None => True
  end.

Definition is_trim_of (s t : string) : Prop :=
  exists a b, s = a +:+ t +:+ b
    /\ all_space a = true /\ all_space b = true
    /\ not_space (first_char t) /\ not_space (last_char t).

(** ** The table loader *)

Inductive exn : Type :=
| UnicodeDecodeError
| FileNotFoundError
| ParserError
| Exception (msg : string).

Definition encodings : list string :=
  ["utf-8"; "latin-1"; "iso-8859-1"; "cp1252"; "utf-8-sig"]%string.

Section Loader.

(** What [pd.read_csv] rests on: the files that exist, the codecs, and the
    CSV parser that builds a table from decoded text. *)
Context {Table : Type}.
Variable fs : string -> option (list ascii).
Variable decode : string -> list ascii -> option string.
Variable parse : string -> option Table.

(** [pd.read_csv(filename, encoding=encoding)] *)
Definition read_csv (filename encoding : string) : Table + exn :=
  match fs filename with
  | None => inr FileNotFoundError
  | Some bytes =>
      match decode encoding bytes with
      | None => inr UnicodeDecodeError
      | Some text =>
          match parse text with
          | Some t => inl t
          | None => inr ParserError
          end
      end
  end.

(** The [for encoding in encodings] loop: only [UnicodeDecodeError] is
    caught; a table is returned and any other exception leaves the loop. *)
Fixpoint try_encodings (filename : string) (encs : list string) : Table + exn :=
  match encs with
  | [] => inr (Exception ("Could not load " +:+ filename +:+ " with any encoding"))
  | encoding :: rest =>
      match read_csv filename encoding with
      | inr UnicodeDecodeError => try_encodings filename rest
      | r => r
      end
  end.

Definition load_csv_with_encoding (filename : string) : Table + exn :=
  try_encodings filename encodings.

End Loader.

(** [read_csv] above raises three exceptions only.  [pd.read_csv] raises
    others (PermissionError, IsADirectoryError, MemoryError, ...), none of
    which the loop catches.  An exception of the loader is therefore one of
    [exn] or any other one, by the name of its class, and the loader is
    taken over every reader. *)
Inductive raised : Type :=
| Known (e : exn)
| Other (class_name : string).

(** [except UnicodeDecodeError] *)
Definition is_UnicodeDecodeError (e : raised) : bool :=
  match e with Known UnicodeDecodeError => true | _ => false end.

Section AnyReader.

Context {Table : Type}.

(** [pd.read_csv(filename, encoding=encoding)]: a table, or any exception. *)
Variable read : string -> string -> Table + raised.

Fixpoint try_encodings_any (filename : string) (encs : list string)
  : Table + raised :=
  match encs with
  | [] => inr (Known (Exception ("Could not load " +:+ filename
                                   +:+ " with any encoding")))
  | encoding :: rest =>
      match read filename encoding with
      | inl t => inl t
      | inr e => if is_UnicodeDecodeError e
                 then try_encodings_any filename rest
                 else inr e
      end
  end.

Definition load_csv_with_encoding_any (filename : string) : Table + raised :=
  try_encodings_any filename encodings.

End AnyReader.

(** A result of [read_csv] as a result of a reader of the general kind. *)
Definition known_reader {Table : Type} (r : Table + exn) : Table + raised :=
  match r with inl t => inl t | inr e => inr (Known e) end.

(** ** The six tables *)

(** Numeric and key columns of the fact table are taken to be present in
    every row. *)
Record FactRecord : Type := {
  fact_payment_key : string;
  fact_coustomer_key : string;
  fact_time_key : string;
  fact_item_key : string;
  fact_store_key : string;
  fact_quantity : Z;
  fact_unit_price : Q;
  fact_total_price : Q }.

Record CustomerDim : Type := {
  cust_coustomer_key : string;
  cust_name : string }.

Record ItemDim : Type := {
  item_item_key : string;
  item_item_name : string;
  item_desc : option string;
  item_man_country : string;
  item_supplier : string }.

Record StoreDim : Type := {
  store_store_key : string;
  store_division : string;
  store_district : string }.

(** [time_date] is the column after
    [pd.to_datetime(..., format="%d-%m-%Y %H:%M", errors="coerce")]:
    nanoseconds since the epoch, or [None] (NaT) where the string did not
    parse. *)
Record TimeDim : Type := {
  time_time_key : string;
  time_date : option Z;
  time_year : Z;
  time_month : Z;
  time_quarter : string }.

Record TransDim : Type := {
  trans_payment_key : string;
  trans_trans_type : string;
  trans_bank_name : option string }.

Record Tables : Type := {
  customer_dim : list CustomerDim;
  item_dim : list ItemDim;
  store_dim : list StoreDim;
  time_dim : list TimeDim;
  trans_dim : list TransDim;
  fact_table : list FactRecord }.

(** [trans_dim["bank_name"].replace("None", np.nan)] *)
Definition replace_None (x : option string) : option string :=
  match x with
  | Some s => if String.eqb s "None" then None else Some s
  | None => None
  end.

Definition clean_trans (t : TransDim) : TransDim :=
  {| trans_payment_key := trans_payment_key t;
     trans_trans_type := trans_trans_type t;
     trans_bank_name := replace_None (trans_bank_name t) |}.

(** ** The unified table *)

Record UnifiedRecord : Type := {
  payment_key : string;
  coustomer_key : string;
  time_key : string;
  item_key : string;
  store_key : string;
  quantity : Z;
  unit_price : Q;
  total_price : Q;
  name : option string;
  item_name : option string;
  main_category : option string;
  man_country : option string;
  supplier : option string;
  division : option string;
  district : option string;
  date : option Z;
  year : option Z;
  month : option Z;
  quarter : option string;
  trans_type : option string;
  bank_name : option string;
  profit_margin : float64;
  weekday : option string }.

(** [left.merge(right, on=key, how="left")]: every left row, in order, once
    per right row with an equal key, or once with no right row. *)
Definition merge_left {L R : Type} (kl : L -> string) (kr : R -> string)
    (left : list L) (right : list R) : list (L * option R) :=
  flat_map
    (fun l =>
       match List.filter (fun r => String.eqb (kr r) (kl l)) right with
       | [] => [(l, None)]
       | ms => map (fun r => (l, Some r)) ms
       end)
    left.

(** [(total_price - unit_price * 0.7) / total_price * 100], in exact
    arithmetic: the value of the column up to rounding error, overflow and
    the sign of zero.  [profit_margin_f64] below is the same expression on
    binary64. *)
Definition derive_profit_margin (total_price unit_price : Q) : float64 :=
  fmul
    (fdiv (fsub (Fin total_price) (fmul (Fin unit_price) (Fin (7 # 10))))
          (Fin total_price))
    (Fin 100).

(** ** The profit margin on binary64 *)

(** The column expression of one row, on IEEE 754 binary64 values: every
    operation rounds to nearest, a division by zero gives an infinity or
    NaN and raises nothing (pandas computes the column under
    [numpy.errstate(all="ignore")]). *)
Set Warnings "-inexact-float".

Definition margin_numerator (total_price unit_price : float) : float :=
  (total_price - unit_price * 0.7)%float.

Definition profit_margin_f64 (total_price unit_price : float) : float :=
  (margin_numerator total_price unit_price / total_price * 100)%float.

(** [pd.isna] on a float: NaN is the missing value, an infinity is not. *)
Definition isna_f64 (x : float) : bool :=
  match classify x with FloatClass.NaN => true | _ => false end.

(** [x == 0], true of both zeros. *)
Definition is_zero_f64 (x : float) : bool :=
  match classify x with PZero | NZero => true | _ => false end.

(** [numpy.isfinite] *)
Definition is_finite_f64 (x : float) : bool :=
  match classify x with FloatClass.NaN | PInf | NInf => false | _ => true end.

(** IEEE 754 division of a value of class [n] by a zero of class [z]: NaN
    for a zero or NaN numerator, otherwise the infinity whose sign is the
    product of the two signs. *)
Definition over_zero (n z : float_class) : float :=
  match n with
  | FloatClass.NaN | PZero | NZero => nan
  | PInf | PNormal | PSubn =>
      match z with NZero => neg_infinity | _ => infinity end
  | NInf | NNormal | NSubn =>
      match z with NZero => infinity | _ => neg_infinity end
  end.

Definition ns_per_day : Z := 86400000000000.

(** [.dt.date]: the calendar day of a timestamp, as days since the epoch. *)
Definition to_date (ts : Z) : Z := ts / ns_per_day.

Definition weekdays : list string :=
  ["Monday"; "Tuesday"; "Wednesday"; "Thursday"; "Friday"; "Saturday";
   "Sunday"]%string.

(** [.dt.day_name()]: day 0 of the epoch was a Thursday. *)
Definition day_name (ts : Z) : string :=
  nth (Z.to_nat ((to_date ts + 3) mod 7)) weekdays EmptyString.

Definition fact_of (x : FactRecord * option CustomerDim * option ItemDim
                        * option StoreDim * option TimeDim * option TransDim)
  : FactRecord := fst (fst (fst (fst (fst x)))).

Definition unified_of (x : FactRecord * option CustomerDim * option ItemDim
                           * option StoreDim * option TimeDim * option TransDim)
  : UnifiedRecord :=
  let '(f, c, i, s, t, p) := x in
  let d := t ≫= time_date in
  {| payment_key := fact_payment_key f;
     coustomer_key := fact_coustomer_key f;
     time_key := fact_time_key f;
     item_key := fact_item_key f;
     store_key := fact_store_key f;
     quantity := fact_quantity f;
     unit_price := fact_unit_price f;
     total_price := fact_total_price f;
     name := cust_name <$> c;
     item_name := item_item_name <$> i;
     main_category := (fun r => main_category_of (item_desc r)) <$> i;
     man_country := item_man_country <$> i;
     supplier := item_supplier <$> i;
     division := store_division <$> s;
     district := store_district <$> s;
     date := d;
     year := time_year <$> t;
     month := time_month <$> t;
     quarter := time_quarter <$> t;
     trans_type := trans_trans_type <$> p;
     bank_name := p ≫= trans_bank_name;
     profit_margin :=
       derive_profit_margin (fact_total_price f) (fact_unit_price f);
     weekday := day_name <$> d |}.

(** The chain of five left merges in [load_data]. *)
Definition merged (T : Tables)
  : list (FactRecord * option CustomerDim * option ItemDim
          * option StoreDim * option TimeDim * option TransDim) :=
  let m1 := merge_left fact_coustomer_key cust_coustomer_key
              (fact_table T) (customer_dim T) in
  let m2 := merge_left (fun x => fact_item_key (fst x)) item_item_key
              m1 (item_dim T) in
  let m3 := merge_left (fun x => fact_store_key (fst (fst x))) store_store_key
              m2 (store_dim T) in
  let m4 := merge_left (fun x => fact_time_key (fst (fst (fst x)))) time_time_key
              m3 (time_dim T) in
  merge_left (fun x => fact_payment_key (fst (fst (fst (fst x)))))
    trans_payment_key m4 (map clean_trans (trans_dim T)).

(** [load_data()["comprehensive"]] *)
Definition comprehensive_data (T : Tables) : list UnifiedRecord :=
  map unified_of (merged T).

(** ** The sidebar filters of [main] *)

Definition date_between (lo hi : Z) (r : UnifiedRecord) : bool :=
  match date r with
  | Some ts => (lo <=? to_date ts) && (to_date ts <=? hi)
  | None => false
  end.

Definition cell_eqb (x y : option string) : bool :=
  match x, y with
  | Some a, Some b => String.eqb a b
  | None, None => true
  | _, _ => false
  end.

(** [series.isin(values)]: a cell is kept when it equals one of the values;
    a missing cell only when the missing value is among them. *)
Definition isin (x : option string) (values : list (option string)) : bool :=
  existsb (cell_eqb x) values.

Definition apply_filters (date_range : list Z)
    (divisions payment_methods : list (option string))
    (data : list UnifiedRecord) : list UnifiedRecord :=
  let data :=
    match date_range with
    | [lo; hi] => List.filter (date_between lo hi) data
    | _ => data
    end in
  let data :=
    match divisions with
    | [] => data
    | _ => List.filter (fun r => isin (division r) divisions) data
    end in
  match payment_methods with
  | [] => data
  | _ => List.filter (fun r => isin (trans_type r) payment_methods) data
  end.

(** [series.min()] and [series.max()] of a datetime column skip NaT and are
    NaT ([None]) when nothing is left. *)
Definition series_min (l : list (option Z)) : option Z :=
  match omap id l with
  | [] => None
  | x :: r => Some (fold_left Z.min r x)
  end.

Definition series_max (l : list (option Z)) : option Z :=
  match omap id l with
  | [] => None
  | x :: r => Some (fold_left Z.max r x)
  end.

(** The default of the date picker:
    [[data["date"].min().date(), data["date"].max().date()]]. *)
Definition full_date_range (data : list UnifiedRecord) : option (list Z) :=
  match series_min (map date data), series_max (map date data) with
  | Some lo, Some hi => Some [to_date lo; to_date hi]
  | _, _ => None
  end.

(** ** Aggregations *)

(** [series.nunique()] *)
Definition nunique (l : list string) : nat := length (remove_dups l).

Record Kpi : Type := {
  total_revenue : Q;
  total_orders : nat;
  avg_order_value : float64;
  total_customers : nat;
  total_products : nat }.

Definition create_kpi_metrics (data : list UnifiedRecord) : Kpi :=
  {| total_revenue := Qsum (map total_price data);
     total_orders := length data;
     avg_order_value := mean (map total_price data);
     total_customers := nunique (map coustomer_key data);
     total_products := nunique (map item_key data) |}.

(** The group keys of [groupby(col)]: the distinct non-missing values, in
    sorted order. *)
Definition group_keys (col : list (option string)) : list string :=
  merge_sort String.le (remove_dups (omap id col)).

Definition has_key (key : UnifiedRecord -> option string) (k : string)
    (r : UnifiedRecord) : bool :=
  match key r with Some s => String.eqb s k | None => false end.

(** [data.groupby(key)["total_price"].sum()] *)
Definition groupby_sum (key : UnifiedRecord -> option string)
    (data : list UnifiedRecord) : list (string * Q) :=
  map (fun k => (k, Qsum (map total_price (List.filter (has_key key k) data))))
      (group_keys (map key data)).

Definition Qge_snd (a b : string * Q) : Prop := Qle_bool (snd b) (snd a).

(** [.sort_values(ascending=False).head(n)]; the order pandas gives rows of
    equal value is not specified, the merge sort here fixes one. *)
Definition top (n : nat) (s : list (string * Q)) : list (string * Q) :=
  take n (merge_sort Qge_snd s).

Definition quarterly_revenue := groupby_sum quarter.
Definition division_revenue := groupby_sum division.
Definition payment_revenue := groupby_sum trans_type.
Definition category_revenue (data : list UnifiedRecord) :=
  top 10 (groupby_sum main_category data).
Definition country_revenue (data : list UnifiedRecord) :=
  top 10 (groupby_sum man_country data).

(** [data[data["trans_type"] == "card"].dropna(subset=["bank_name"])], then
    the top 8 banks. *)
Definition bank_revenue (data : list UnifiedRecord) : list (string * Q) :=
  let bank_data :=
    List.filter
      (fun r => cell_eqb (trans_type r) (Some "card"%string)
                && match bank_name r with Some _ => true | None => false end)
      data in
  top 8 (groupby_sum bank_name bank_data).

(** [series.reindex(labels)]: one entry per label, NaN where the series has
    no such label. *)
Definition reindex (labels : list string) (s : list (string * Q))
  : list (string * float64) :=
  map (fun l =>
         (l, match List.find (fun kv => String.eqb (fst kv) l) s with
             | Some kv => Fin (snd kv)
             | None => NaN
             end))
      labels.

Definition weekday_revenue (data : list UnifiedRecord)
  : list (string * float64) :=
  reindex weekdays (groupby_sum weekday data).

(** ** Customer metrics and segmentation *)

Record CustomerMetric : Type := {
  customer : string;
  Total_Spent : Q;
  Avg_Order_Value : float64;
  Order_Count : Z;
  Total_Quantity : Z }.

Definition orders_of (k : string) (data : list UnifiedRecord)
  : list UnifiedRecord :=
  List.filter (fun r => String.eqb (coustomer_key r) k) data.

(** [data.groupby("coustomer_key")
        .agg({"total_price": ["sum", "mean", "count"], "quantity": "sum"})
        .round(2)]
    with the sum, the mean and the rounding in exact arithmetic ([round2]);
    [customer_metrics_with] below leaves what pandas computes for them
    open. *)
Definition customer_metrics (data : list UnifiedRecord) : list CustomerMetric :=
  map (fun k =>
         let g := orders_of k data in
         {| customer := k;
            Total_Spent := round2 (Qsum (map total_price g));
            Avg_Order_Value := fround2 (mean (map total_price g));
            Order_Count := Z.of_nat (length g);
            Total_Quantity := fold_right Z.add 0 (map quantity g) |})
      (group_keys (map (fun r => Some (coustomer_key r)) data)).

Fixpoint Qinsert (x : Q) (l : list Q) : list Q :=
  match l with
  | [] => [x]
  | y :: r => if Qle_bool x y then x :: l else y :: Qinsert x r
  end.

Fixpoint Qsort (l : list Q) : list Q :=
  match l with
  | [] => []
  | x :: r => Qinsert x (Qsort r)
  end.

(** [series.quantile(p)] with the default linear interpolation: the value at
    the virtual index [(n - 1) * p] of the sorted values, interpolated
    between its two neighbours; NaN for an empty series. *)
Definition quantile (values : list Q) (p : Q) : float64 :=
  match values with
  | [] => NaN
  | _ =>
      let s := Qsort values in
      let n := Z.of_nat (length values) in
      let pos := (inject_Z (n - 1) * p)%Q in
      let lo := Qfloor pos in
      let hi := Z.min (lo + 1) (n - 1) in
      let a := nth (Z.to_nat lo) s 0%Q in
      let b := nth (Z.to_nat hi) s 0%Q in
      Fin (a + (b - a) * (pos - inject_Z lo))
  end.

(** [segment_customers(row)], with the frame [customer_metrics] it closes
    over. *)
Definition segment_customers (customer_metrics : list CustomerMetric)
    (row : CustomerMetric) : string :=
  if (5 <=? Order_Count row)
     && fge (Fin (Total_Spent row))
            (quantile (map Total_Spent customer_metrics) (3 # 4))
  then "VIP Customers"
  else if (3 <=? Order_Count row)
          && fge (Fin (Total_Spent row))
                 (quantile (map Total_Spent customer_metrics) (1 # 2))
  then "Loyal Customers"
  else if 2 <=? Order_Count row then "Regular Customers"
  else "One-time Buyers".

(** [customer_metrics.apply(segment_customers, axis=1)] *)
Definition segments (data : list UnifiedRecord) : list (string * string) :=
  let cm := customer_metrics data in
  map (fun row => (customer row, segment_customers cm row)) cm.

Section RoundedMetrics.

(** What pandas computes from the [total_price] values of one group, in
    the order of the rows: [sum_round2] is their float sum rounded by
    [.round(2)], [mean_round2] their float mean rounded likewise.  Both are
    functions of the group's values; nothing else is assumed of them, so
    what follows holds of the float results, whatever their rounding.  The
    sum is taken to be finite. *)
Variable sum_round2 : list Q -> Q.
Variable mean_round2 : list Q -> float64.

(** The frame [customer_metrics] of the code, lines 353-363. *)
Definition customer_metrics_with (data : list UnifiedRecord)
  : list CustomerMetric :=
  map (fun k =>
         let g := orders_of k data in
         {| customer := k;
            Total_Spent := sum_round2 (map total_price g);
            Avg_Order_Value := mean_round2 (map total_price g);
            Order_Count := Z.of_nat (length g);
            Total_Quantity := fold_right Z.add 0 (map quantity g) |})
      (group_keys (map (fun r => Some (coustomer_key r)) data)).


End RoundedMetrics.

(** ** The segmentation rule in the specification's words *)












(** Priority of a segment label, highest first. *)
Definition priority (label : string) : nat :=
  if String.eqb label "VIP Customers" then 3
  else if String.eqb label "Loyal Customers" then 2
  else if String.eqb label "Regular Customers" then 1
  else 0.

(** The fact columns of a unified record. *)
Definition fact_columns (r : UnifiedRecord) : FactRecord :=
  {| fact_payment_key := payment_key r;
     fact_coustomer_key := coustomer_key r;
     fact_time_key := time_key r;
     fact_item_key := item_key r;
     fact_store_key := store_key r;
     fact_quantity := quantity r;
     fact_unit_price := unit_price r;
     fact_total_price := total_price r |}.

(** ** Counting, for the order statistics of a sorted list *)

(** The number of values of [l] that are at most [t]. *)
Definition count_le (t : Q) (l : list Q) : nat :=
  length (List.filter (fun y => Qle_bool y t) l).

(** ** Concrete inputs *)

(** A record of customer [k] with total price [tp] and timestamp [d], joined
    to no other dimension row. *)
Definition sample_row (k : string) (tp : Q) (d : option Z) : UnifiedRecord :=
  {| payment_key := "P1"; coustomer_key := k; time_key := "T1";
     item_key := "I1"; store_key := "S1"; quantity := 1; unit_price := tp;
     total_price := tp; name := None; item_name := None;
     main_category := None; man_country := None; supplier := None;
     division := None; district := None; date := d; year := None;
     month := None; quarter := None; trans_type := None; bank_name := None;
     profit_margin := derive_profit_margin tp tp;
     weekday := day_name <$> d |}.

(** A reader of a file the process may not read. *)
Definition permission_denied (filename encoding : string) : unit + raised :=
  inr (Other "PermissionError").

(** A file system with one file, which only cp1252 decodes; and a codec
    that decodes nothing. *)
Definition sample_fs (filename : string) : option (list ascii) :=
  if String.eqb filename "fact_table.csv" then Some ["a"%char] else None.

Definition sample_decode (encoding : string) (bytes : list ascii)
  : option string :=
  if String.eqb encoding "cp1252" then Some "a"%string else None.

Definition sample_parse (text : string) : option (list string) := Some [text].

Definition no_decode (encoding : string) (bytes : list ascii)
  : option string := None.

(** Two records, the second without a date; and two dated records three
    days apart. *)
Definition null_date_data : list UnifiedRecord :=
  [sample_row "C1" 10 (Some 0); sample_row "C2" 20 None].

Definition dated_data : list UnifiedRecord :=
  [sample_row "C1" 10 (Some 0); sample_row "C2" 20 (Some (3 * ns_per_day + 5))].

(** Six small tables: the first fact row matches every dimension, the
    second matches none. *)
Definition sample_tables : Tables :=
  {| customer_dim :=
       [{| cust_coustomer_key := "C1"; cust_name := "Ann" |};
        {| cust_coustomer_key := "C2"; cust_name := "Bob" |}];
     item_dim :=
       [{| item_item_key := "I1"; item_item_name := "Phone";
           item_desc := Some "Electronics - Phones"%string;
           item_man_country := "India"; item_supplier := "Acme" |}];
     store_dim :=
       [{| store_store_key := "S1"; store_division := "DHAKA";
           store_district := "DHAKA" |}];
     time_dim :=
       [{| time_time_key := "T1"; time_date := Some 0; time_year := 1970;
           time_month := 1; time_quarter := "Q1" |}];
     trans_dim :=
       [{| trans_payment_key := "P1"; trans_trans_type := "card";
           trans_bank_name := Some "None"%string |}];
     fact_table :=
       [{| fact_payment_key := "P1"; fact_coustomer_key := "C1";
           fact_time_key := "T1"; fact_item_key := "I1";
           fact_store_key := "S1"; fact_quantity := 2;
           fact_unit_price := 5; fact_total_price := 10 |};
        {| fact_payment_key := "P9"; fact_coustomer_key := "C9";
           fact_time_key := "T9"; fact_item_key := "I9";
           fact_store_key := "S9"; fact_quantity := 1;
           fact_unit_price := 7; fact_total_price := 7 |}] |}.

(** Customer "a" with five orders summing to 10.001 and customer "b" with
    one order of 10.004; and a population of four customers with order
    counts 1, 2, 4, 6 and totals 10, 50, 200, 900. *)
Definition rounding_data : list UnifiedRecord :=
  [sample_row "a" 2 None; sample_row "a" 2 None; sample_row "a" 2 None;
   sample_row "a" 2 None; sample_row "a" (2001 # 1000) None;
   sample_row "b" (10004 # 1000) None].

Definition sample_population : list CustomerMetric :=
  [{| customer := "c1"; Total_Spent := 10; Avg_Order_Value := Fin 10;
      Order_Count := 1; Total_Quantity := 1 |};
   {| customer := "c2"; Total_Spent := 50; Avg_Order_Value := Fin 25;
      Order_Count := 2; Total_Quantity := 2 |};
   {| customer := "c3"; Total_Spent := 200; Avg_Order_Value := Fin 50;
      Order_Count := 4; Total_Quantity := 4 |};
   {| customer := "c4"; Total_Spent := 900; Avg_Order_Value := Fin 150;
      Order_Count := 6; Total_Quantity := 6 |}].

(** ** Further parts of the dashboard *)

(** [sep.join(pieces)] *)
Fixpoint join (sep : string) (pieces : list string) : string :=
  match pieces with
  | [] => EmptyString
  | p :: rest =>
      match rest with
      | [] => p
      | _ => p +:+ sep +:+ join sep rest
      end
  end.

(** The three masks of [main] taken together: a filter that is switched off
    lets every record pass. *)
Definition passes (date_range : list Z)
    (divisions payment_methods : list (option string))
    (r : UnifiedRecord) : bool :=
  match date_range with
  | [lo; hi] => date_between lo hi r
  | _ => true
  end
  && match divisions with
     | [] => true
     | _ => isin (division r) divisions
     end
  && match payment_methods with
     | [] => true
     | _ => isin (trans_type r) payment_methods
     end.

(** [series.unique()]: the distinct cells in order of first appearance, the
    missing value included. *)
Fixpoint unique_from (seen col : list (option string)) : list (option string) :=
  match col with
  | [] => []
  | x :: r =>
      if existsb (cell_eqb x) seen then unique_from seen r
      else x :: unique_from (x :: seen) r
  end.

Definition unique (col : list (option string)) : list (option string) :=
  unique_from [] col.

Definition has_date (r : UnifiedRecord) : bool :=
  match date r with Some _ => true | None => false end.

(** A cell that is not missing. *)
Definition has_value (x : option string) : bool :=
  match x with Some _ => true | None => false end.

(** The records whose key is one of [K]. *)
Definition key_in (key : UnifiedRecord -> option string) (K : list string)
    (r : UnifiedRecord) : bool :=
  match key r with
  | Some s => existsb (String.eqb s) K
  | None => false
  end.

(** ** The executive summary and the control flow of [main] *)

Inductive py_error : Type := ValueError | KeyError.

(** [series.idxmax()]: the label of the first of the largest values;
    ValueError on an empty series. *)
Fixpoint idxmax_from (best : string * Q) (s : list (string * Q)) : string :=
  match s with
  | [] => fst best
  | kv :: r =>
      if Qle_bool (snd kv) (snd best) then idxmax_from best r
      else idxmax_from kv r
  end.

Definition idxmax (s : list (string * Q)) : string + py_error :=
  match s with
  | [] => inr ValueError
  | kv :: r => inl (idxmax_from kv r)
  end.

(** [series.value_counts()] over the sorted distinct values. *)
Definition value_counts (col : list (option string)) : list (string * nat) :=
  map (fun k => (k, length (List.filter (cell_eqb (Some k)) col)))
      (group_keys col).

Fixpoint mode_from (best : string * nat) (s : list (string * nat)) : string :=
  match s with
  | [] => fst best
  | kv :: r =>
      if (snd kv <=? snd best)%nat then mode_from best r else mode_from kv r
  end.

(** [series.mode()[0]]: the smallest of the most frequent values; KeyError
    when every cell is missing, the series of modes being empty. *)
Definition mode0 (col : list (option string)) : string + py_error :=
  match value_counts col with
  | [] => inr KeyError
  | kv :: r => inl (mode_from kv r)
  end.

(** The values the three summary boxes of [main] display, before their
    formatting ([:,.0f], [.title()]); an exception of one of them leaves
    [main]. *)
Record Summary : Type := {
  summary_revenue : Q;
  top_division : string;
  peak_sales_day : string;
  top_category : string;
  best_customer_segment : float64;
  payment_preference : string }.

Definition executive_summary (data : list UnifiedRecord)
  : Summary + py_error :=
  match idxmax (groupby_sum division data) with
  | inr e => inr e
  | inl d =>
      match idxmax (groupby_sum weekday data) with
      | inr e => inr e
      | inl w =>
          match idxmax (groupby_sum main_category data) with
          | inr e => inr e
          | inl c =>
              match mode0 (map trans_type data) with
              | inr e => inr e
              | inl m =>
                  inl {| summary_revenue := Qsum (map total_price data);
                         top_division := d;
                         peak_sales_day := w;
                         top_category := c;
                         best_customer_segment :=
                           quantile
                             (map snd
                                (groupby_sum
                                   (fun r => Some (coustomer_key r)) data))
                             (9 # 10);
                         payment_preference := m |}
              end
          end
      end
  end.

(** Where [main] ends up, from the loaded table and the values of the three
    sidebar widgets on: the load failed; the sidebar line
    [data['date'].min().strftime(...)] raised because the minimum is NaT;
    the "No data available" message; or the dashboard branch, entered with
    the filtered table. *)
Inductive Outcome : Type :=
| LoadFailed
| Raised (e : py_error)
| NoData
| Dashboard (shown : list UnifiedRecord).

Definition main (loaded : option (list UnifiedRecord)) (date_range : list Z)
    (divisions payment_methods : list (option string)) : Outcome :=
  match loaded with
  | None => LoadFailed
  | Some data =>
      let data := apply_filters date_range divisions payment_methods data in
      match series_min (map date data), series_max (map date data) with
      | Some _, Some _ =>
          if (0 <? length data)%nat then Dashboard data else NoData
      | _, _ => Raised ValueError
      end
  end.

(** ** The launcher, [launch_dashboard.py] *)

Module Launcher.

(** What the launcher does, in order: the pip runs it starts, the messages
    that depend on its checks, the prompt and the start of the dashboard. *)
Inductive event : Type :=
| Installing (package : string)
| InstallError (package : string)
| MissingCsv (files : list string)
| ScriptNotFound
| InstallationFailed
| PressEnter
| InputRaised
| LaunchDashboard.

Definition packages : list string :=
  ["streamlit==1.28.0"; "pandas==2.1.0"; "numpy==1.24.3"; "plotly==5.15.0";
   "seaborn==0.12.2"; "matplotlib==3.7.2"]%string.

(** The loop of [install_requirements]; [pip package] tells whether
    [subprocess.check_call] returns, rather than raising
    [CalledProcessError]. *)
Fixpoint install_loop (pip : string -> bool) (ps : list string)
  : bool * list event :=
  match ps with
  | [] => (true, [])
  | package :: rest =>
      if pip package
      then let '(ok, ev) := install_loop pip rest in
           (ok, Installing package :: ev)
      else (false, [Installing package; InstallError package])
  end.

Definition install_requirements (pip : string -> bool) : bool * list event :=
  install_loop pip packages.

Definition csv_files : list string :=
  ["customer_dim.csv"; "item_dim.csv"; "store_dim.csv"; "time_dim.csv";
   "Trans_dim.csv"; "fact_table.csv"]%string.

(** [input_returns] tells whether [input(...)] at the prompt returns,
    rather than raising [EOFError] (standard input is closed) or
    [KeyboardInterrupt]; the exception is not caught and leaves [main]
    before [launch_dashboard] is called. *)
Definition main (path_exists : string -> bool) (pip : string -> bool)
    (input_returns : bool) : list event :=
  if negb (path_exists "ecommerce_dashboard.py") then [ScriptNotFound]
  else
    let missing_files :=
      List.filter (fun f => negb (path_exists f)) csv_files in
    match missing_files with
    | [] => []
    | _ => [MissingCsv missing_files]
    end
    ++ let '(ok, ev) := install_requirements pip in
       ev ++ if ok
             then PressEnter
                  :: (if input_returns then [LaunchDashboard] else [InputRaised])
             else [InstallationFailed].

(** The packages for which a pip run was started. *)
Definition attempted (ev : list event) : list string :=
  omap (fun e => match e with Installing p => Some p | _ => None end) ev.

End Launcher.

(** A codec in which only utf-8 fails. *)
Definition any_decode (encoding : string) (bytes : list ascii)
  : option string :=
  if String.eqb encoding "utf-8" then None else Some (string_of_list_ascii bytes).

(** * Theorems *)

(** * Profit margin *)

(** Rounding never produces NaN: the mantissa stays non-negative through
    the shifts, so the last case of [binary_round_aux] does not arise. *)
Lemma shr_1_nonneg mrs : 0 <= shr_m mrs -> 0 <= shr_m (shr_1 mrs).
Proof.
  destruct mrs as [m r s]. cbn [shr_m]. intros Hm.
  destruct m as [|[p|p|]|p]; cbn; lia.
Qed.

Lemma iter_pos_shr_1_nonneg p : forall mrs,
  0 <= shr_m mrs -> 0 <= shr_m (SpecFloat.iter_pos shr_1 p mrs).
Proof.
  induction p as [p IH|p IH|]; intros mrs Hm; cbn [SpecFloat.iter_pos].
  - apply IH, IH, shr_1_nonneg, Hm.
  - apply IH, IH, Hm.
  - apply shr_1_nonneg, Hm.
Qed.

Lemma shr_fexp_nonneg prec emax m e l :
  0 <= m -> 0 <= shr_m (fst (shr_fexp prec emax m e l)).
Proof.
  intros Hm. unfold shr_fexp, shr.
  assert (H0 : 0 <= shr_m (shr_record_of_loc m l))
    by (destruct l as [|[]]; exact Hm).
  destruct (_ - e); cbn [fst]; try exact H0.
  apply iter_pos_shr_1_nonneg, H0.
Qed.

Lemma round_nearest_even_nonneg m l : 0 <= m -> 0 <= round_nearest_even m l.
Proof.
  intros Hm. unfold round_nearest_even.
  destruct l as [|[]]; try destruct (Z.even m); lia.
Qed.

Lemma binary_round_aux_not_nan prec emax sx mx ex lx :
  0 <= mx -> binary_round_aux prec emax sx mx ex lx <> S754_nan.
Proof.
  intros Hm. unfold binary_round_aux.
  pose proof (shr_fexp_nonneg prec emax mx ex lx Hm) as H1.
  destruct (shr_fexp prec emax mx ex lx) as [mrs' e']. cbn [fst] in H1.
  pose proof (shr_fexp_nonneg prec emax _ e' loc_Exact
                (round_nearest_even_nonneg _ (loc_of_shr_record mrs') H1)) as H2.
  destruct (shr_fexp prec emax _ e' loc_Exact) as [mrs'' e'']. cbn [fst] in H2.
  destruct (shr_m mrs'') as [|m|m]; [discriminate| |lia].
  destruct (Z.leb _ _); discriminate.
Qed.

Lemma binary_normalize_not_nan prec emax m e sz :
  binary_normalize prec emax m e sz <> S754_nan.
Proof.
  unfold binary_normalize, binary_round.
  destruct m as [|m|m]; [discriminate| |];
    destruct (shl_align _ _ _); apply binary_round_aux_not_nan; lia.
Qed.

(** A number times, minus or over a finite nonzero number is a number. *)
Lemma SFmul_finite_not_nan prec emax x s m e :
  x <> S754_nan -> SFmul prec emax x (S754_finite s m e) <> S754_nan.
Proof.
  intros Hx. destruct x as [sx|sx| |sx mx ex]; cbn; try discriminate;
    [congruence|]. apply binary_round_aux_not_nan; lia.
Qed.

Lemma SFsub_finite_not_nan prec emax s m e y :
  y <> S754_nan -> SFsub prec emax (S754_finite s m e) y <> S754_nan.
Proof.
  intros Hy. destruct y as [sy|sy| |sy my ey]; cbn; try discriminate;
    [congruence|]. apply binary_normalize_not_nan.
Qed.

Lemma SFdiv_finite_not_nan prec emax x s m e :
  x <> S754_nan -> SFdiv prec emax x (S754_finite s m e) <> S754_nan.
Proof.
  intros Hx. destruct x as [sx|sx| |sx mx ex]; cbn [SFdiv]; try discriminate;
    [congruence|].
  unfold SFdiv_core_binary.
  set (m' := match _ - _ - _ with Z0 => Z.pos mx | Z.pos _ => _ | Z.neg _ => 0 end).
  assert (Hm' : 0 <= m').
  { subst m'. destruct (_ - _ - _); [lia| |lia]. apply Z.shiftl_nonneg. lia. }
  pose proof (Z.div_pos m' (Z.pos m) Hm' ltac:(lia)) as Hq.
  unfold Z.div in Hq. destruct (Z.div_eucl m' (Z.pos m)) as [q r].
  apply binary_round_aux_not_nan, Hq.
Qed.

Lemma isna_f64_false x : isna_f64 x = false <-> Prim2SF x <> S754_nan.
Proof.
  unfold isna_f64. rewrite classify_spec. unfold SF64classify, SFclassify.
  destruct (Prim2SF x) as [[]|[]| |[] m e]; try destruct (Z.eqb _ _);
    split; done.
Qed.

Lemma nonzero_finite_f64 x :
  is_finite_f64 x = true -> is_zero_f64 x = false ->
  exists s m e, Prim2SF x = S754_finite s m e.
Proof.
  unfold is_finite_f64, is_zero_f64. rewrite classify_spec.
  unfold SF64classify, SFclassify.
  destruct (Prim2SF x) as [[]|[]| |s m e]; try done. eauto.
Qed.

Lemma zero_f64 x :
  is_zero_f64 x = true ->
  Prim2SF x = S754_zero (match classify x with NZero => true | _ => false end).
Proof.
  unfold is_zero_f64. rewrite classify_spec. unfold SF64classify, SFclassify.
  destruct (Prim2SF x) as [[]|[]| |[] m e]; try done; by destruct (Z.eqb _ _).
Qed.

Lemma profit_margin_f64_zero tp up :
  is_zero_f64 tp = true ->
  profit_margin_f64 tp up
  = over_zero (classify (margin_numerator tp up)) (classify tp).
Proof.
  intros Hz. unfold profit_margin_f64. apply Prim2SF_inj.
  rewrite mul_spec, div_spec, (zero_f64 tp Hz).
  rewrite (classify_spec (margin_numerator tp up)).
  unfold is_zero_f64 in Hz.
  destruct (Prim2SF (margin_numerator tp up)) as [[]|[]| |[] m e];
    unfold SF64classify, SFclassify; try destruct (Z.eqb _ _);
    destruct (classify tp); try discriminate Hz; reflexivity.
Qed.

Lemma profit_margin_f64_number tp up :
  is_finite_f64 tp = true -> is_zero_f64 tp = false -> isna_f64 up = false ->
  isna_f64 (profit_margin_f64 tp up) = false.
Proof.
  intros Hf Hz Hup. apply isna_f64_false. apply isna_f64_false in Hup.
  destruct (nonzero_finite_f64 tp Hf Hz) as (s & m & e & Htp).
  unfold profit_margin_f64, margin_numerator.
  rewrite mul_spec, div_spec, sub_spec, mul_spec, Htp.
  change (Prim2SF 100) with (S754_finite false 7036874417766400 (-46)).
  apply SFmul_finite_not_nan, SFdiv_finite_not_nan, SFsub_finite_not_nan.
  assert (H07 : exists s7 m7 e7, Prim2SF 0.7 = S754_finite s7 m7 e7)
    by (vm_compute; eauto).
  destruct H07 as (s7 & m7 & e7 & ->).
  apply SFmul_finite_not_nan, Hup.
Qed.

(** The column on binary64 at five rows: a zero total price with a positive
    unit price, and with unit price 0; rounding ((7, 7) gives
    30.00000000000001, not 30); overflow (a finite nonzero total price gives
    an infinity); and the negative zero. *)
Example profit_margin_f64_values :
  profit_margin_f64 0 10 = neg_infinity
  /\ isna_f64 (profit_margin_f64 0 0) = true
  /\ profit_margin_f64 7 7 = 30.00000000000001%float
  /\ profit_margin_f64 1e-300 1e10 = neg_infinity
  /\ profit_margin_f64 (-0) 10 = infinity.
Proof. repeat split; vm_compute; reflexivity. Qed.

(** C3 as stated fails: at total price 0 and unit price 10 the profit margin
    is -inf, which is not the missing value. *)
Lemma profit_margin_zero_total_is_neg_inf :
  is_zero_f64 0 = true
  /\ profit_margin_f64 0 10 = neg_infinity
  /\ isna_f64 (profit_margin_f64 0 10) = false.
Proof. repeat split; vm_compute; reflexivity. Qed.

(** C3, amended: the profit margin of a row is the binary64 value of
    (total_price - unit_price * 0.7) / total_price * 100 and raises nothing.
    With a zero total price it is NaN (the missing value) when the numerator
    total_price - unit_price * 0.7 is zero or NaN, and otherwise an infinity,
    which is not missing: the infinity of the numerator's sign for +0.0 and
    of the opposite sign for -0.0.  With a finite nonzero total price and a
    unit price that is not NaN it is never NaN. *)
Theorem profit_margin_f64_by_total_price (total_price unit_price : float) :
  (is_zero_f64 total_price = true ->
     profit_margin_f64 total_price unit_price
     = over_zero (classify (margin_numerator total_price unit_price))
                 (classify total_price))
  /\ (is_finite_f64 total_price = true ->
      is_zero_f64 total_price = false ->
      isna_f64 unit_price = false ->
      isna_f64 (profit_margin_f64 total_price unit_price) = false).
Proof.
  split; [apply profit_margin_f64_zero|apply profit_margin_f64_number].
Qed.

(** C3, at total price 0 with unit price 10, and at total price 7 with unit
    price 7. *)
Lemma profit_margin_f64_by_total_price_witness :
  profit_margin_f64 0 10 = neg_infinity
  /\ isna_f64 (profit_margin_f64 7 7) = false.
Proof.
  split.
  - exact (proj1 (profit_margin_f64_by_total_price 0 10) eq_refl).
  - exact (proj2 (profit_margin_f64_by_total_price 7 7) eq_refl eq_refl eq_refl).
Defined.

(** * Strings *)

Lemma app_cons c s t : String c s +:+ t = String c (s +:+ t).
Proof. reflexivity. Qed.

Lemma app_empty_l t : EmptyString +:+ t = t.
Proof. reflexivity. Qed.

Lemma app_empty_r s : s +:+ EmptyString = s.
Proof. induction s as [|c s IH]; [done|]. by rewrite app_cons, IH. Qed.

Lemma str_app_assoc s t u : (s +:+ t) +:+ u = s +:+ (t +:+ u).
Proof. induction s as [|c s IH]; [done|]. by rewrite !app_cons, IH. Qed.

Lemma prefix_true_iff a s :
  String.prefix a s = true <-> exists r, s = a +:+ r.
Proof.
  revert s. induction a as [|c a IH]; intros s.
  - split; [intros _; by exists s|intros _; by destruct s].
  - destruct s as [|d s]; simpl.
    + split; [done|]. intros [r Hr]. discriminate.
    + destruct (ascii_dec c d) as [->|Hne].
      * rewrite IH. split; intros [r Hr]; exists r.
        -- by rewrite app_cons, <- Hr.
        -- rewrite app_cons in Hr. by injection Hr.
      * split; [done|]. intros [r Hr]. rewrite app_cons in Hr. congruence.
Qed.

Lemma contains_iff sep s : contains sep s = true <-> occurs sep s.
Proof.
  unfold occurs. induction s as [|c s IH].
  - cbn [contains]. rewrite orb_false_r, prefix_true_iff. split.
    + intros [r Hr]. by exists EmptyString, r.
    + intros (p & r & H). destruct p; [by exists r|discriminate].
  - cbn [contains]. rewrite orb_true_iff, prefix_true_iff, IH. split.
    + intros [[r Hr]|(p & r & Hr)].
      * by exists EmptyString, r.
      * exists (String c p), r. by rewrite app_cons, <- Hr.
    + intros ([|d p] & r & Hr).
      * left. by exists r.
      * right. rewrite app_cons in Hr. injection Hr as -> ->. by exists p, r.
Qed.

Lemma split_go_head a sep' p r cur :
  before_first (String a sep') (p +:+ String a sep' +:+ r) p ->
  hd EmptyString (split_go (String a sep') (p +:+ String a sep' +:+ r) 0 cur)
  = cur +:+ p.
Proof.
  revert cur. induction p as [|c p IH]; intros cur [_ Hmin].
  - rewrite app_empty_l, app_empty_r, app_cons. cbn [split_go].
    assert (String.prefix (String a sep') (String a (sep' +:+ r)) = true) as ->.
    { apply prefix_true_iff. by exists r. }
    reflexivity.
  - rewrite app_cons. cbn [split_go].
    assert (String.prefix (String a sep') (String c (p +:+ String a sep' +:+ r))
            = false) as ->.
    { apply not_true_is_false. intros [r' Hr']%prefix_true_iff.
      specialize (Hmin EmptyString r'). rewrite app_empty_l, app_cons in Hmin.
      specialize (Hmin Hr'). simpl in Hmin. lia. }
    rewrite IH.
    + by rewrite str_app_assoc.
    + split; [by exists r|]. intros p' r' H.
      specialize (Hmin (String c p') r'). rewrite !app_cons in Hmin.
      specialize (Hmin (f_equal (String c) H)). simpl in Hmin. lia.
Qed.

Lemma split_head_before_first sep s p :
  sep <> EmptyString -> before_first sep s p ->
  hd EmptyString (split sep s) = p.
Proof.
  intros Hsep Hb. destruct sep as [|a sep']; [done|].
  destruct Hb as [[r ->] Hmin]. unfold split.
  rewrite split_go_head; [done|]. split; [by exists r|done].
Qed.

Lemma lstrip_spec s :
  exists a, s = a +:+ lstrip s /\ all_space a = true
            /\ not_space (first_char (lstrip s)).
Proof.
  induction s as [|c s (a & Ha & Hsp & Hfirst)].
  - by exists EmptyString.
  - simpl. destruct (isspace c) eqn:Hc.
    + exists (String c a). rewrite app_cons, <- Ha. simpl. by rewrite Hc, Hsp.
    + exists EmptyString. by simpl.
Qed.

Lemma rstrip_spec s :
  exists b, s = rstrip s +:+ b /\ all_space b = true
            /\ not_space (last_char (rstrip s))
            /\ (not_space (first_char s) -> not_space (first_char (rstrip s))).
Proof.
  induction s as [|c s (b & Hb & Hsp & Hlast & Hfirst)].
  - by exists EmptyString.
  - cbn [rstrip]. destruct (rstrip s) as [|d r'] eqn:Hr.
    + rewrite app_empty_l in Hb. subst b.
      destruct (isspace c) eqn:Hc.
      * exists (String c s). cbn [all_space first_char last_char not_space].
        rewrite Hc, Hsp. split; [done|]. split; [done|]. split; [done|].
        intros; congruence.
      * exists s. cbn [all_space first_char last_char not_space].
        by rewrite app_cons, app_empty_l.
    + exists b. rewrite app_cons, <- Hb.
      cbn [first_char last_char not_space] in *.
      split; [done|]. split; [done|]. split; [|done].
      by destruct (last_char r').
Qed.

Lemma strip_is_trim s : is_trim_of s (strip s).
Proof.
  unfold is_trim_of, strip.
  destruct (lstrip_spec s) as (a & Ha & Hsa & Hfirst).
  destruct (rstrip_spec (lstrip s)) as (b & Hb & Hsb & Hlast & Hkeep).
  exists a, b. split; [|by auto]. by rewrite <- Hb.
Qed.

(** C8: for a description [s] that is present, [main_category] is the part
    of [s] before the first occurrence of " - " with its surrounding
    whitespace removed, and all of [s] with its surrounding whitespace
    removed when " - " does not occur; "Electronics - Phones" gives
    "Electronics" and "Misc" gives "Misc". *)
Theorem main_category_before_delimiter s :
  (forall p, before_first " - " s p ->
     main_category_of (Some s) = strip p /\ is_trim_of p (strip p))
  /\ (~ occurs " - " s ->
      main_category_of (Some s) = strip s /\ is_trim_of s (strip s))
  /\ main_category_of (Some "Electronics - Phones"%string) = "Electronics"%string
  /\ main_category_of (Some "Misc"%string) = "Misc"%string.
Proof.
  split; [|split; [|by split]].
  - intros p Hp. split; [|apply strip_is_trim].
    unfold main_category_of.
    assert (contains " - " s = true) as ->.
    { apply contains_iff. destruct Hp as [[r Hr] _]. by exists p, r. }
    by rewrite (split_head_before_first " - " s p).
  - intros Hno. split; [|apply strip_is_trim].
    unfold main_category_of.
    destruct (contains " - " s) eqn:E; [|done].
    by apply contains_iff in E.
Qed.

(** C8, at a description with two delimiters and at one with none. *)
Lemma main_category_before_delimiter_witness :
  main_category_of (Some " Home  - Kitchen - Pans"%string) = "Home"%string
  /\ main_category_of (Some "  Misc "%string) = "Misc"%string.
Proof.
  split.
  - refine (eq_trans (proj1 (proj1 (main_category_before_delimiter
              " Home  - Kitchen - Pans") " Home " _)) _); [|reflexivity].
    split; [by exists "Kitchen - Pans"%string|].
    intros p' r' H.
    destruct p' as [|c0 [|c1 [|c2 [|c3 [|c4 [|c5 p']]]]]];
      simpl; try lia; discriminate.
  - refine (eq_trans (proj1 (proj1 (proj2 (main_category_before_delimiter
              "  Misc ")) _)) _); [|reflexivity].
    intros H%contains_iff. discriminate.
Defined.

(** * The loader *)

Section LoaderFacts.

Context {Table : Type}.
Variable fs : string -> option (list ascii).
Variable decode : string -> list ascii -> option string.
Variable parse : string -> option Table.


Lemma try_encodings_first filename encs i enc r :
  encs !! i = Some enc ->
  (forall j e, (j < i)%nat -> encs !! j = Some e ->
               read_csv fs decode parse filename e = inr UnicodeDecodeError) ->
  read_csv fs decode parse filename enc = r ->
  r <> inr UnicodeDecodeError ->
  try_encodings fs decode parse filename encs = r.
Proof.
  revert i. induction encs as [|e0 encs IH]; intros i Hi Hbefore Hr Hne.
  - by rewrite lookup_nil in Hi.
  - destruct i as [|i]; simpl in Hi.
    + injection Hi as ->. simpl. rewrite Hr.
      destruct r as [t|[]]; congruence.
    + simpl. rewrite (Hbefore 0%nat e0); [|lia|done].
      apply (IH i); [done| |done|done].
      intros j e Hj He. apply (Hbefore (S j)); [lia|done].
Qed.

Lemma try_encodings_exhausted filename encs :
  (forall e, In e encs -> read_csv fs decode parse filename e = inr UnicodeDecodeError) ->
  try_encodings fs decode parse filename encs
  = inr (Exception ("Could not load " +:+ filename +:+ " with any encoding")).
Proof.
  induction encs as [|e0 encs IH]; intros H; [done|].
  simpl. rewrite (H e0) by (by left). apply IH. intros e He. apply H. by right.
Qed.

Lemma read_csv_absent filename e :
  fs filename = None -> read_csv fs decode parse filename e = inr FileNotFoundError.
Proof. unfold read_csv. by intros ->. Qed.

(** C7: the loader tries utf-8, latin-1, iso-8859-1, cp1252, utf-8-sig in
    that order and returns the table read with the first encoding that does
    not raise a decode error; it fails when every encoding raises a decode
    error, and when the file does not exist. *)
Theorem load_csv_with_encoding_first_success filename :
  encodings = ["utf-8"; "latin-1"; "iso-8859-1"; "cp1252"; "utf-8-sig"]%string
  /\ (forall i enc t,
        encodings !! i = Some enc ->
        (forall j e, (j < i)%nat -> encodings !! j = Some e ->
                     read_csv fs decode parse filename e = inr UnicodeDecodeError) ->
        read_csv fs decode parse filename enc = inl t ->
        load_csv_with_encoding fs decode parse filename = inl t)
  /\ ((forall e, In e encodings -> read_csv fs decode parse filename e = inr UnicodeDecodeError) ->
      exists err, load_csv_with_encoding fs decode parse filename = inr err)
  /\ (fs filename = None ->
      exists err, load_csv_with_encoding fs decode parse filename = inr err).
Proof.
  split; [done|]. split; [|split].
  - intros i enc t Hi Hbefore Hr.
    by apply (try_encodings_first filename encodings i enc).
  - intros H. eexists. by apply try_encodings_exhausted.
  - intros H. exists FileNotFoundError.
    apply (try_encodings_first filename encodings 0%nat "utf-8"); try done.
    + intros j e Hj. lia.
    + by apply read_csv_absent.
Qed.

End LoaderFacts.

(** C7, on a file that only cp1252 decodes, with a codec that decodes
    nothing, and on a missing file. *)
Lemma load_csv_with_encoding_first_success_witness :
  load_csv_with_encoding sample_fs sample_decode sample_parse "fact_table.csv"
    = inl ["a"%string]
  /\ (exists err,
        load_csv_with_encoding sample_fs no_decode sample_parse "fact_table.csv"
        = inr err)
  /\ (exists err,
        load_csv_with_encoding sample_fs sample_decode sample_parse "missing.csv"
        = inr err).
Proof.
  split; [|split].
  - refine (proj1 (proj2 (load_csv_with_encoding_first_success
              sample_fs sample_decode sample_parse "fact_table.csv"))
              3%nat "cp1252"%string _ _ _ _).
    + reflexivity.
    + intros j e Hj He.
      destruct j as [|[|[|j]]]; [| | |lia]; injection He as <-; reflexivity.
    + reflexivity.
  - refine (proj1 (proj2 (proj2 (load_csv_with_encoding_first_success
              sample_fs no_decode sample_parse "fact_table.csv"))) _).
    intros e He. reflexivity.
  - refine (proj2 (proj2 (proj2 (load_csv_with_encoding_first_success
              sample_fs sample_decode sample_parse "missing.csv"))) _).
    reflexivity.
Defined.

(** * Filters *)

Lemma In_apply_filters date_range divs pms data r :
  In r (apply_filters date_range divs pms data) ->
  In r (match date_range with
        | [lo; hi] => List.filter (date_between lo hi) data
        | _ => data
        end).
Proof.
  unfold apply_filters. intros H.
  destruct pms; [|apply filter_In in H as [H _]];
    (destruct divs; [|apply filter_In in H as [H _]]); exact H.
Qed.

(** C9: whatever the two bounds of the date range, and so also for the
    full range, no record with a missing date passes the filters. *)
Theorem date_filter_drops_null_dates data lo hi divs pms r :
  In r (apply_filters [lo; hi] divs pms data) -> date r <> None.
Proof.
  intros H%In_apply_filters. apply filter_In in H as [_ H].
  unfold date_between in H. by destruct (date r).
Qed.

(** * Group keys *)

Lemma In_group_keys (col : list (option string)) (k : string) :
  In k (group_keys col) <-> In (Some k) col.
Proof.
  unfold group_keys. rewrite <- !list_elem_of_In.
  rewrite merge_sort_Permutation, elem_of_remove_dups, list_elem_of_omap.
  split.
  - intros ([x|] & Hx & Hk); simplify_eq/=. done.
  - intros H. by exists (Some k).
Qed.

Lemma NoDup_group_keys col : NoDup (group_keys col).
Proof.
  unfold group_keys. rewrite merge_sort_Permutation. apply NoDup_remove_dups.
Qed.

Lemma In_groupby_sum key data k :
  In (Some k) (map key data) ->
  In (k, Qsum (map total_price (List.filter (has_key key k) data)))
     (groupby_sum key data).
Proof.
  intros H. unfold groupby_sum.
  apply in_map_iff. exists k. split; [done|]. by apply In_group_keys.
Qed.

(** * Empty collection *)

(** C6 as stated fails: on the empty collection the revenue by weekday is
    not empty and not zero, it has one NaN entry for each of the seven
    weekdays. *)
Lemma weekday_revenue_empty_not_empty :
  weekday_revenue [] = map (fun d => (d, NaN)) weekdays
  /\ length (weekday_revenue []) = 7%nat
  /\ weekday_revenue [] <> [].
Proof. repeat split. discriminate. Qed.

(** C6, amended: on the empty collection the KPI summary is revenue 0,
    0 orders, an undefined (NaN) average order value, 0 customers and 0
    products; every grouped sum, every top-N ranking, the customer metrics
    and the segmentation are empty; the revenue by weekday has the seven
    weekdays, each with the value NaN.  All of these are values: nothing
    raises, and the mean does not divide by the zero count. *)
Theorem empty_collection_aggregates :
  create_kpi_metrics []
  = {| total_revenue := 0; total_orders := 0; avg_order_value := NaN;
       total_customers := 0; total_products := 0 |}
  /\ (forall key, groupby_sum key [] = [])
  /\ category_revenue [] = []
  /\ country_revenue [] = []
  /\ bank_revenue [] = []
  /\ customer_metrics [] = []
  /\ segments [] = []
  /\ weekday_revenue [] = map (fun d => (d, NaN)) weekdays.
Proof. repeat split. Qed.

(** * Null description *)

(** C10: an item whose description is missing has the main category "nan",
    a string and not a missing value, and a record with that category is
    counted in the group "nan" of the revenue by category. *)
Theorem null_description_is_nan_category :
  main_category_of None = "nan"%string
  /\ (forall f c i s t p,
        item_desc i = None ->
        main_category (unified_of (f, c, Some i, s, t, p)) = Some "nan"%string)
  /\ (forall data r,
        In r data -> main_category r = Some "nan"%string ->
        In r (List.filter (has_key main_category "nan") data)
        /\ In ("nan"%string,
               Qsum (map total_price
                       (List.filter (has_key main_category "nan") data)))
              (groupby_sum main_category data)).
Proof.
  split; [reflexivity|]. split.
  - intros f c i s t p H. simpl. by rewrite H.
  - intros data r Hr Hc. split.
    + apply filter_In. split; [done|]. unfold has_key. by rewrite Hc.
    + apply In_groupby_sum. rewrite <- Hc. by apply in_map.
Qed.

(** * Left joins *)

Section Merge.

Context {L R : Type} (kl : L -> string) (kr : R -> string).

Lemma filter_key_NoDup (right : list R) (k : string) :
  NoDup (map kr right) ->
  (length (List.filter (fun r => String.eqb (kr r) k) right) <= 1)%nat.
Proof.
  induction right as [|r right IH]; simpl; [lia|].
  intros [Hr Hnd]%NoDup_cons. specialize (IH Hnd).
  destruct (String.eqb_spec (kr r) k) as [E|E]; [|done]. simpl.
  assert (List.filter (fun r0 => String.eqb (kr r0) k) right = []) as ->; [|simpl; lia].
  destruct (List.filter _ right) as [|r' l] eqn:Hf; [done|].
  exfalso. assert (In r' (List.filter (fun r0 => String.eqb (kr r0) k) right)) as Hin.
  { rewrite Hf. by left. }
  apply filter_In in Hin as [Hin Hk]. apply String.eqb_eq in Hk.
  apply Hr. apply list_elem_of_In. rewrite E, <- Hk. by apply in_map.
Qed.

Lemma merge_left_one_per_row (left : list L) (right : list R) :
  NoDup (map kr right) ->
  map fst (merge_left kl kr left right) = left.
Proof.
  intros Hnd. unfold merge_left.
  induction left as [|l left IH]; [done|].
  cbn [flat_map]. rewrite map_app, IH.
  pose proof (filter_key_NoDup right (kl l) Hnd) as Hlen.
  destruct (List.filter _ right) as [|r [|r' ms]]; simpl in *; [done|done|lia].
Qed.

Lemma merge_left_unmatched (left : list L) (right : list R) (x : L * option R) :
  In x (merge_left kl kr left right) ->
  ~ In (kl (fst x)) (map kr right) ->
  snd x = None.
Proof.
  unfold merge_left. rewrite in_flat_map. intros (l & Hl & Hx) Hno.
  destruct (List.filter _ right) as [|r ms] eqn:Hf.
  - destruct Hx as [<-|[]]. done.
  - exfalso. apply in_map_iff in Hx as (r0 & <- & Hr0). rewrite <- Hf in Hr0.
    apply filter_In in Hr0 as [Hin Hk]. apply String.eqb_eq in Hk.
    apply Hno. simpl. rewrite <- Hk. by apply in_map.
Qed.

Lemma merge_left_fst_in (left : list L) (right : list R) (x : L * option R) :
  In x (merge_left kl kr left right) -> In (fst x) left.
Proof.
  unfold merge_left. rewrite in_flat_map. intros (l & Hl & Hx).
  destruct (List.filter _ right) as [|r ms].
  - by destruct Hx as [<-|[]].
  - by apply in_map_iff in Hx as (r0 & <- & Hr0).
Qed.

End Merge.

Lemma map_clean_trans_keys l :
  map trans_payment_key (map clean_trans l) = map trans_payment_key l.
Proof. rewrite map_map. done. Qed.

Lemma fact_columns_unified x : fact_columns (unified_of x) = fact_of x.
Proof. destruct x as [[[[[[] c] i] s] t] p]. reflexivity. Qed.

Lemma merged_facts T :
  NoDup (map cust_coustomer_key (customer_dim T)) ->
  NoDup (map item_item_key (item_dim T)) ->
  NoDup (map store_store_key (store_dim T)) ->
  NoDup (map time_time_key (time_dim T)) ->
  NoDup (map trans_payment_key (trans_dim T)) ->
  map fact_of (merged T) = fact_table T.
Proof.
  intros Hc Hi Hs Ht Hp. unfold merged, fact_of.
  rewrite <- (merge_left_one_per_row fact_coustomer_key cust_coustomer_key
                (fact_table T) (customer_dim T) Hc) at 2.
  rewrite <- (merge_left_one_per_row (fun x => fact_item_key (fst x))
                item_item_key _ (item_dim T) Hi) at 2.
  rewrite <- (merge_left_one_per_row (fun x => fact_store_key (fst (fst x)))
                store_store_key _ (store_dim T) Hs) at 2.
  rewrite <- (merge_left_one_per_row (fun x => fact_time_key (fst (fst (fst x))))
                time_time_key _ (time_dim T) Ht) at 2.
  rewrite <- (merge_left_one_per_row
                (fun x => fact_payment_key (fst (fst (fst (fst x)))))
                trans_payment_key _ (map clean_trans (trans_dim T))) at 2
    by by rewrite map_clean_trans_keys.
  by rewrite !map_map.
Qed.

Lemma merged_unmatched T f c i s t p :
  In (f, c, i, s, t, p) (merged T) ->
  (~ In (fact_coustomer_key f) (map cust_coustomer_key (customer_dim T)) -> c = None)
  /\ (~ In (fact_item_key f) (map item_item_key (item_dim T)) -> i = None)
  /\ (~ In (fact_store_key f) (map store_store_key (store_dim T)) -> s = None)
  /\ (~ In (fact_time_key f) (map time_time_key (time_dim T)) -> t = None)
  /\ (~ In (fact_payment_key f) (map trans_payment_key (trans_dim T)) -> p = None).
Proof.
  unfold merged. intros H5.
  pose proof (merge_left_fst_in _ _ _ _ _ H5) as H4.
  pose proof (merge_left_fst_in _ _ _ _ _ H4) as H3.
  pose proof (merge_left_fst_in _ _ _ _ _ H3) as H2.
  pose proof (merge_left_fst_in _ _ _ _ _ H2) as H1.
  repeat split; intros Hno.
  - exact (merge_left_unmatched _ _ _ _ _ H1 Hno).
  - exact (merge_left_unmatched _ _ _ _ _ H2 Hno).
  - exact (merge_left_unmatched _ _ _ _ _ H3 Hno).
  - exact (merge_left_unmatched _ _ _ _ _ H4 Hno).
  - refine (merge_left_unmatched _ _ _ _ _ H5 _).
    by rewrite map_clean_trans_keys.
Qed.

(** C5: when the keys of every dimension table are pairwise distinct, the
    unified table has exactly the fact rows, each once and in order; and a
    record whose key has no row in a dimension table has that dimension's
    columns missing. *)
Theorem unify_one_record_per_fact_row T :
  NoDup (map cust_coustomer_key (customer_dim T)) ->
  NoDup (map item_item_key (item_dim T)) ->
  NoDup (map store_store_key (store_dim T)) ->
  NoDup (map time_time_key (time_dim T)) ->
  NoDup (map trans_payment_key (trans_dim T)) ->
  map fact_columns (comprehensive_data T) = fact_table T
  /\ length (comprehensive_data T) = length (fact_table T)
  /\ forall r, In r (comprehensive_data T) ->
       (~ In (coustomer_key r) (map cust_coustomer_key (customer_dim T)) ->
          name r = None)
       /\ (~ In (item_key r) (map item_item_key (item_dim T)) ->
             item_name r = None /\ main_category r = None
             /\ man_country r = None /\ supplier r = None)
       /\ (~ In (store_key r) (map store_store_key (store_dim T)) ->
             division r = None /\ district r = None)
       /\ (~ In (time_key r) (map time_time_key (time_dim T)) ->
             date r = None /\ year r = None /\ month r = None
             /\ quarter r = None)
       /\ (~ In (payment_key r) (map trans_payment_key (trans_dim T)) ->
             trans_type r = None /\ bank_name r = None).
Proof.
  intros Hc Hi Hs Ht Hp.
  assert (map fact_columns (comprehensive_data T) = fact_table T) as Hfacts.
  { unfold comprehensive_data. rewrite map_map.
    rewrite <- (merged_facts T Hc Hi Hs Ht Hp).
    apply map_ext. intros x. apply fact_columns_unified. }
  split; [exact Hfacts|]. split.
  { rewrite <- Hfacts. by rewrite length_map. }
  intros r Hr. unfold comprehensive_data in Hr.
  apply in_map_iff in Hr as ([[[[[f c] i] s] t] p] & <- & Hx).
  destruct (merged_unmatched T f c i s t p Hx) as (H1 & H2 & H3 & H4 & H5).
  cbn. split; [|split; [|split; [|split]]]; intros Hno.
  - by rewrite (H1 Hno).
  - by rewrite (H2 Hno).
  - by rewrite (H3 Hno).
  - by rewrite (H4 Hno).
  - by rewrite (H5 Hno).
Qed.

(** C5, at the six sample tables. *)
Lemma unify_one_record_per_fact_row_witness :
  map fact_columns (comprehensive_data sample_tables) = fact_table sample_tables
  /\ length (comprehensive_data sample_tables) = 2%nat.
Proof.
  assert (forall l : list string, bool_decide (NoDup l) = true -> NoDup l) as nd.
  { intros l H. by apply bool_decide_eq_true in H. }
  destruct (unify_one_record_per_fact_row sample_tables) as (H1 & H2 & _).
  1-5: apply nd; vm_compute; reflexivity.
  split; [exact H1|exact H2].
Defined.

(** * Filter identity *)

Lemma filter_all {A} (f : A -> bool) (l : list A) :
  (forall x, In x l -> f x = true) -> List.filter f l = l.
Proof.
  induction l as [|a l IH]; intros H; [done|].
  simpl. rewrite (H a) by (by left). f_equal. apply IH. intros x Hx. apply H. by right.
Qed.

Lemma fold_left_min_le (l : list Z) (x : Z) :
  fold_left Z.min l x <= x /\ forall y, In y l -> fold_left Z.min l x <= y.
Proof.
  revert x. induction l as [|a l IH]; intros x; simpl; [split; [lia|tauto]|].
  destruct (IH (Z.min x a)) as [H1 H2]. split; [lia|].
  intros y [<-|Hy]; [lia|auto].
Qed.

Lemma fold_left_max_ge (l : list Z) (x : Z) :
  x <= fold_left Z.max l x /\ forall y, In y l -> y <= fold_left Z.max l x.
Proof.
  revert x. induction l as [|a l IH]; intros x; simpl; [split; [lia|tauto]|].
  destruct (IH (Z.max x a)) as [H1 H2]. split; [lia|].
  intros y [<-|Hy]; [lia|auto].
Qed.

Lemma In_omap_id (l : list (option Z)) (x : Z) :
  In (Some x) l -> In x (omap id l).
Proof.
  intros H. apply list_elem_of_In, list_elem_of_omap.
  exists (Some x). split; [by apply list_elem_of_In|done].
Qed.

Lemma series_min_le l lo x :
  series_min l = Some lo -> In (Some x) l -> lo <= x.
Proof.
  unfold series_min. intros H Hx%In_omap_id.
  destruct (omap id l) as [|a r]; [done|]. injection H as <-.
  destruct (fold_left_min_le r a) as [H1 H2].
  destruct Hx as [<-|Hx]; auto.
Qed.

Lemma series_max_ge l hi x :
  series_max l = Some hi -> In (Some x) l -> x <= hi.
Proof.
  unfold series_max. intros H Hx%In_omap_id.
  destruct (omap id l) as [|a r]; [done|]. injection H as <-.
  destruct (fold_left_max_ge r a) as [H1 H2].
  destruct Hx as [<-|Hx]; auto.
Qed.

Lemma to_date_mono a b : a <= b -> to_date a <= to_date b.
Proof. intros H. unfold to_date. apply Z.div_le_mono; [done|exact H]. Qed.

(** C4 as stated fails: with no division and no payment method selected
    and the full date range, the record without a date is dropped. *)
Lemma full_range_drops_null_date :
  full_date_range null_date_data = Some [0; 0]
  /\ apply_filters [0; 0] [] [] null_date_data <> null_date_data.
Proof. split; [reflexivity|]. vm_compute. discriminate. Qed.

(** C4, amended: for a collection in which every record has a date, the
    filters with no division selected, no payment method selected and the
    date range from the earliest to the latest record date return the
    collection unchanged, in the same order. *)
Theorem filter_identity_on_dated_records data range :
  full_date_range data = Some range ->
  (forall r, In r data -> date r <> None) ->
  apply_filters range [] [] data = data.
Proof.
  unfold full_date_range. intros Hrange Hdated.
  destruct (series_min (map date data)) as [lo|] eqn:Hlo; [|done].
  destruct (series_max (map date data)) as [hi|] eqn:Hhi; [|done].
  injection Hrange as <-. unfold apply_filters.
  apply filter_all. intros r Hr. unfold date_between.
  destruct (date r) as [ts|] eqn:Hts; [|by destruct (Hdated r Hr)].
  assert (In (Some ts) (map date data)) as Hin.
  { rewrite <- Hts. by apply in_map. }
  pose proof (series_min_le _ _ _ Hlo Hin).
  pose proof (series_max_ge _ _ _ Hhi Hin).
  apply andb_true_iff. split; apply Z.leb_le; by apply to_date_mono.
Qed.

(** C4, at two dated records. *)
Lemma filter_identity_on_dated_records_witness :
  apply_filters [0; 3] [] [] dated_data = dated_data.
Proof.
  apply (filter_identity_on_dated_records dated_data [0; 3]).
  - reflexivity.
  - intros r [<-|[<-|[]]]; discriminate.
Defined.

(** C9, at a record that passes the date filter. *)
Lemma date_filter_drops_null_dates_witness :
  date (sample_row "C1" 10 (Some 0)) <> None.
Proof.
  apply (date_filter_drops_null_dates null_date_data 0 0 [] []
           (sample_row "C1" 10 (Some 0))).
  left. reflexivity.
Defined.

(** * Order statistics *)

Lemma Qle_bool_false x y : Qle_bool x y = false <-> (y < x)%Q.
Proof.
  rewrite <- not_true_iff_false, Qle_bool_iff. split; [apply Qnot_le_lt|apply Qlt_not_le].
Qed.

Lemma Qinsert_perm x l : Permutation (Qinsert x l) (x :: l).
Proof.
  induction l as [|y l IH]; simpl; [done|].
  destruct (Qle_bool x y); [done|]. rewrite IH. apply perm_swap.
Qed.

Lemma Qsort_perm l : Permutation (Qsort l) l.
Proof.
  induction l as [|x l IH]; simpl; [done|]. by rewrite Qinsert_perm, IH.
Qed.

Lemma Qsort_length l : length (Qsort l) = length l.
Proof. apply Permutation_length, Qsort_perm. Qed.

Lemma Qinsert_sorted x l :
  StronglySorted Qle l -> StronglySorted Qle (Qinsert x l).
Proof.
  induction 1 as [|y l Hs IH Hall]; simpl.
  - repeat constructor.
  - destruct (Qle_bool x y) eqn:E.
    + apply Qle_bool_iff in E. constructor; [by constructor|].
      constructor; [done|]. eapply Forall_impl; [exact Hall|].
      intros z Hz. simpl in Hz. lra.
    + apply Qle_bool_false in E. constructor; [done|].
      rewrite Qinsert_perm. constructor; [lra|done].
Qed.

Lemma Qsort_sorted l : StronglySorted Qle (Qsort l).
Proof.
  induction l as [|x l IH]; simpl; [constructor|]. by apply Qinsert_sorted.
Qed.

Lemma count_le_perm t l l' : Permutation l l' -> count_le t l = count_le t l'.
Proof.
  unfold count_le. induction 1 as [|x l l' _ IH|x y l|l1 l2 l3 _ IH1 _ IH2];
    simpl; [done| | |congruence].
  - destruct (Qle_bool x t); simpl; congruence.
  - destruct (Qle_bool x t), (Qle_bool y t); reflexivity.
Qed.

Lemma count_le_above a t l :
  Forall (Qle a) l -> (t < a)%Q -> count_le t l = 0%nat.
Proof.
  unfold count_le. induction 1 as [|y l Hy _ IH]; intros Ht; simpl; [done|].
  assert (Qle_bool y t = false) as ->; [|by apply IH].
  apply Qle_bool_false. lra.
Qed.

Lemma count_le_cons t a l :
  count_le t (a :: l)
  = ((if Qle_bool a t then 1 else 0) + count_le t l)%nat.
Proof. unfold count_le. simpl. by destruct (Qle_bool a t). Qed.

Lemma sorted_nth_le_iff s k t :
  StronglySorted Qle s -> (k < length s)%nat ->
  (nth k s 0 <= t)%Q <-> (k < count_le t s)%nat.
Proof.
  intros Hs. revert k. induction Hs as [|a s Hs IH Hall]; intros k Hk.
  - simpl in Hk. lia.
  - rewrite count_le_cons. destruct (Qle_bool a t) eqn:E.
    + apply Qle_bool_iff in E. destruct k as [|k]; simpl.
      * split; [lia|done].
      * simpl in Hk. rewrite IH by lia. lia.
    + apply Qle_bool_false in E.
      rewrite (count_le_above a t s Hall E).
      split; [|lia]. intros H. exfalso.
      assert (a <= nth k (a :: s) 0)%Q; [|lra].
      destruct k as [|k]; simpl; [lra|].
      rewrite Forall_forall in Hall. apply Hall, list_elem_of_In, nth_In.
      simpl in Hk. lia.
Qed.

Lemma count_le_shift d t l l' :
  Forall2 (fun a b => (b <= a + d)%Q) l l' ->
  (count_le t l <= count_le (t + d) l')%nat.
Proof.
  unfold count_le. induction 1 as [|a b l l' Hab _ IH]; simpl; [done|].
  destruct (Qle_bool a t) eqn:E.
  - apply Qle_bool_iff in E.
    assert (Qle_bool b (t + d) = true) as ->; [|simpl; lia].
    apply Qle_bool_iff. lra.
  - destruct (Qle_bool b (t + d)); simpl; lia.
Qed.

(** Raising the values of a list by at most [d] raises each of its order
    statistics by at most [d]. *)
Lemma order_statistic_shift d l l' k :
  Forall2 (fun a b => (b <= a + d)%Q) l l' ->
  (k < length l)%nat ->
  (nth k (Qsort l') 0 <= nth k (Qsort l) 0 + d)%Q.
Proof.
  intros H Hk. pose proof (Forall2_length _ _ _ H) as Hlen.
  apply sorted_nth_le_iff; [apply Qsort_sorted|rewrite Qsort_length; lia|].
  rewrite (count_le_perm _ _ _ (Qsort_perm l')).
  eapply Nat.lt_le_trans; [|by apply count_le_shift].
  rewrite <- (count_le_perm _ _ _ (Qsort_perm l)).
  apply sorted_nth_le_iff; [apply Qsort_sorted|rewrite Qsort_length; lia|lra].
Qed.

Lemma insert_shift (l : list Q) i x x' :
  l !! i = Some x -> (x <= x')%Q ->
  Forall2 (fun a b => (b <= a + (x' - x))%Q) l (<[i:=x']> l).
Proof.
  revert i. induction l as [|a l IH]; intros i Hi Hx; [constructor|].
  destruct i as [|i]; simpl in *.
  - injection Hi as ->. constructor; [lra|].
    clear IH. induction l; constructor; [lra|done].
  - constructor; [lra|]. by apply IH.
Qed.

Lemma quantile_defined l p : l <> [] -> exists q, quantile l p = Fin q.
Proof. destruct l; [done|]. intros _. by eexists. Qed.

Lemma quantile_shift d l l' p q q' :
  Forall2 (fun a b => (b <= a + d)%Q) l l' ->
  (0 <= p)%Q -> (p <= 1)%Q ->
  quantile l p = Fin q -> quantile l' p = Fin q' ->
  (q' <= q + d)%Q.
Proof.
  intros H Hp0 Hp1 Hq Hq'. pose proof (Forall2_length _ _ _ H) as Hlen.
  destruct l as [|x l]; [done|]. destruct l' as [|x' l']; [done|].
  unfold quantile in Hq, Hq'. rewrite <- Hlen in Hq'.
  set (n := Z.of_nat (length (x :: l))) in *.
  set (pos := (inject_Z (n - 1) * p)%Q) in *.
  set (lo := Qfloor pos) in *.
  set (hi := Z.min (lo + 1) (n - 1)) in *.
  injection Hq as <-. injection Hq' as <-.
  assert (1 <= n) as Hn by (unfold n; simpl; lia).
  assert (0 <= inject_Z (n - 1))%Q as Hn1.
  { change 0%Q with (inject_Z 0). rewrite <- Zle_Qle. lia. }
  assert (0 <= pos)%Q as Hpos0 by (unfold pos; nra).
  assert (pos <= inject_Z (n - 1))%Q as Hpos1 by (unfold pos; nra).
  assert (0 <= lo) as Hlo0.
  { unfold lo. change 0 with (Qfloor 0). by apply Qfloor_resp_le. }
  assert (lo <= n - 1) as Hlo1.
  { unfold lo. rewrite <- (Qfloor_Z (n - 1)). by apply Qfloor_resp_le. }
  assert (0 <= pos - inject_Z lo)%Q as Hf0.
  { pose proof (Qfloor_le pos). fold lo in H0. lra. }
  assert (pos - inject_Z lo <= 1)%Q as Hf1.
  { pose proof (Qlt_floor pos) as Hlt. fold lo in Hlt.
    rewrite inject_Z_plus in Hlt. change (inject_Z 1) with 1%Q in Hlt. lra. }
  assert (Z.to_nat lo < length (x :: l))%nat as Hklo by (unfold n in *; lia).
  assert (Z.to_nat hi < length (x :: l))%nat as Hkhi by (unfold n, hi in *; lia).
  pose proof (order_statistic_shift d _ _ _ H Hklo) as Ha.
  pose proof (order_statistic_shift d _ _ _ H Hkhi) as Hb.
  change (Qinsert x (Qsort l)) with (Qsort (x :: l)).
  change (Qinsert x' (Qsort l')) with (Qsort (x' :: l')).
  set (f := (pos - inject_Z lo)%Q) in *.
  set (a := nth (Z.to_nat lo) (Qsort (x :: l)) 0%Q) in *.
  set (b := nth (Z.to_nat hi) (Qsort (x :: l)) 0%Q) in *.
  set (a' := nth (Z.to_nat lo) (Qsort (x' :: l')) 0%Q) in *.
  set (b' := nth (Z.to_nat hi) (Qsort (x' :: l')) 0%Q) in *.
  clearbody f a b a' b'.
  assert (0 <= (1 - f) * (a + d - a'))%Q as H1
    by (apply Qmult_le_0_compat; lra).
  assert (0 <= f * (b + d - b'))%Q as H2
    by (apply Qmult_le_0_compat; lra).
  clear -H1 H2. lra.
Qed.

(** * Segmentation *)

Lemma map_Total_Spent_insert (pop : list CustomerMetric) i row' :
  map Total_Spent (<[i:=row']> pop)
  = <[i:=Total_Spent row']> (map Total_Spent pop).
Proof.
  revert i. induction pop as [|r pop IH]; intros [|i]; simpl; [done..|].
  by rewrite IH.
Qed.

Lemma map_Total_Spent_lookup (pop : list CustomerMetric) i row :
  pop !! i = Some row -> map Total_Spent pop !! i = Some (Total_Spent row).
Proof.
  revert i. induction pop as [|r pop IH]; intros [|i]; simpl; try done.
  - by intros [= ->].
  - apply IH.
Qed.

Lemma threshold_kept (pop : list CustomerMetric) i row row' p :
  (0 <= p)%Q -> (p <= 1)%Q ->
  pop !! i = Some row ->
  (Total_Spent row <= Total_Spent row')%Q ->
  fge (Fin (Total_Spent row)) (quantile (map Total_Spent pop) p) = true ->
  fge (Fin (Total_Spent row'))
      (quantile (map Total_Spent (<[i:=row']> pop)) p) = true.
Proof.
  intros Hp0 Hp1 Hi Hle Hge. rewrite map_Total_Spent_insert.
  pose proof (map_Total_Spent_lookup _ _ _ Hi) as Hi'.
  pose proof (insert_shift _ _ _ _ Hi' Hle) as Hsh.
  destruct (quantile_defined (map Total_Spent pop) p) as [q Hq].
  { intros E. by rewrite E in Hi'. }
  rewrite Hq in Hge.
  destruct (quantile_defined (<[i:=Total_Spent row']> (map Total_Spent pop)) p)
    as [q' Hq'].
  { intros E. apply (f_equal length) in E. rewrite length_insert in E.
    apply lookup_lt_Some in Hi'. simpl in E. lia. }
  rewrite Hq'. simpl in *. apply Qle_bool_iff. apply Qle_bool_iff in Hge.
  pose proof (quantile_shift _ _ _ _ _ _ Hsh Hp0 Hp1 Hq Hq'). lra.
Qed.

(** C2: replacing the metrics of one customer of a population by metrics
    with an order count and a total spent that are at least as large, all
    other customers unchanged and the quantiles taken over the new
    population, never lowers the priority of that customer's segment. *)
Theorem segmentation_monotone (pop : list CustomerMetric) (i : nat)
    (row row' : CustomerMetric) :
  pop !! i = Some row ->
  Order_Count row <= Order_Count row' ->
  (Total_Spent row <= Total_Spent row')%Q ->
  (priority (segment_customers pop row)
   <= priority (segment_customers (<[i:=row']> pop) row'))%nat.
Proof.
  intros Hi Hc Hs.
  assert (0 <= 3 # 4)%Q as H75a by done. assert (3 # 4 <= 1)%Q as H75b by done.
  assert (0 <= 1 # 2)%Q as H50a by done. assert (1 # 2 <= 1)%Q as H50b by done.
  pose proof (threshold_kept pop i row row' _ H75a H75b Hi Hs) as HV.
  pose proof (threshold_kept pop i row row' _ H50a H50b Hi Hs) as HL.
  unfold segment_customers.
  destruct (fge (Fin (Total_Spent row)) (quantile (map Total_Spent pop) (3 # 4)));
    [rewrite (HV eq_refl)|clear HV];
    (destruct (fge (Fin (Total_Spent row)) (quantile (map Total_Spent pop) (1 # 2)));
     [rewrite (HL eq_refl)|clear HL]).
  all: destruct (Z.leb_spec 5 (Order_Count row)), (Z.leb_spec 3 (Order_Count row)),
         (Z.leb_spec 2 (Order_Count row)); try lia.
  all: destruct (Z.leb_spec 5 (Order_Count row')), (Z.leb_spec 3 (Order_Count row')),
         (Z.leb_spec 2 (Order_Count row')); try lia.
  all: cbn [andb]; repeat match goal with |- context [fge ?a ?b] => destruct (fge a b) end.
  all: vm_compute; lia.
Qed.

Lemma customer_metrics_keys data k :
  In k (map customer (customer_metrics data)) <-> In k (map coustomer_key data).
Proof.
  unfold customer_metrics. rewrite map_map. cbn [customer]. rewrite map_id.
  rewrite In_group_keys, !in_map_iff. split.
  - intros (r & [= <-] & Hr). by exists r.
  - intros (r & <- & Hr). by exists r.
Qed.

Lemma customer_metrics_NoDup data : NoDup (map customer (customer_metrics data)).
Proof.
  unfold customer_metrics. rewrite map_map. cbn [customer]. rewrite map_id.
  apply NoDup_group_keys.
Qed.



(** C2, raising the third of four customers from 4 orders and 200 spent
    to 6 orders and 950 spent. *)
Lemma segmentation_monotone_witness :
  (priority (segment_customers sample_population
               {| customer := "c3"; Total_Spent := 200;
                  Avg_Order_Value := Fin 50; Order_Count := 4;
                  Total_Quantity := 4 |})
   <= priority (segment_customers
                  (<[2%nat :=
                       {| customer := "c3"; Total_Spent := 950;
                          Avg_Order_Value := Fin 50; Order_Count := 6;
                          Total_Quantity := 4 |}]> sample_population)
                  {| customer := "c3"; Total_Spent := 950;
                     Avg_Order_Value := Fin 50; Order_Count := 6;
                     Total_Quantity := 4 |}))%nat.
Proof.
  apply (segmentation_monotone sample_population 2).
  - reflexivity.
  - simpl. lia.
  - simpl. lra.
Defined.

(** C10, at an item row without description. *)
Lemma null_description_is_nan_category_witness :
  main_category
    (unified_of
       (Build_FactRecord "P1" "C1" "T1" "I1" "S1" 1 5 5, None,
        Some (Build_ItemDim "I1" "Cable" None "India" "Acme"),
        None, None, None))
  = Some "nan"%string.
Proof.
  refine (proj1 (proj2 null_description_is_nan_category) _ _ _ _ _ _ _).
  reflexivity.
Defined.

(** * The scenario of four customers *)

Example quantiles_of_sample_population :
  quantile (map Total_Spent sample_population) (3 # 4) = Fin (1500 # 4)
  /\ quantile (map Total_Spent sample_population) (1 # 2) = Fin (250 # 2).
Proof. split; reflexivity. Qed.

Example segments_of_sample_population :
  map (segment_customers sample_population) sample_population
  = ["One-time Buyers"; "Regular Customers"; "Loyal Customers";
     "VIP Customers"]%string.
Proof. reflexivity. Qed.

Example bank_name_None_is_missing :
  map bank_name (comprehensive_data sample_tables) = [None; None].
Proof. reflexivity. Qed.

(** * More on the loader *)

Section LoaderMore.

Context {Table : Type}.
Variable fs : string -> option (list ascii).
Variable decode : string -> list ascii -> option string.
Variable parse : string -> option Table.

Lemma read_csv_cases filename enc :
  (exists t, read_csv fs decode parse filename enc = inl t)
  \/ read_csv fs decode parse filename enc = inr UnicodeDecodeError
  \/ read_csv fs decode parse filename enc = inr FileNotFoundError
  \/ read_csv fs decode parse filename enc = inr ParserError.
Proof.
  unfold read_csv. destruct (fs filename); [|tauto].
  destruct (decode enc l); [|tauto]. destruct (parse s); [|tauto]. left. by eexists.
Qed.

Lemma read_csv_not_found filename enc :
  read_csv fs decode parse filename enc = inr FileNotFoundError <->
  fs filename = None.
Proof.
  unfold read_csv. destruct (fs filename); [|done].
  destruct (decode enc l); [|done]. by destruct (parse s).
Qed.

Lemma try_encodings_sound filename encs r :
  try_encodings fs decode parse filename encs = r ->
  (r = inr (Exception ("Could not load " +:+ filename +:+ " with any encoding"))
   /\ forall e, In e encs ->
        read_csv fs decode parse filename e = inr UnicodeDecodeError)
  \/ exists i enc,
       encs !! i = Some enc
       /\ read_csv fs decode parse filename enc = r
       /\ r <> inr UnicodeDecodeError
       /\ forall j e, (j < i)%nat -> encs !! j = Some e ->
            read_csv fs decode parse filename e = inr UnicodeDecodeError.
Proof.
  revert r. induction encs as [|e0 encs IH]; intros r Hr; simpl in Hr.
  - left. split; [done|]. intros e [].
  - destruct (read_csv fs decode parse filename e0) as [t|err] eqn:H0.
    + right. exists 0%nat, e0. subst r. repeat split; try done. intros; lia.
    + assert (err = UnicodeDecodeError \/ err <> UnicodeDecodeError) as [->|Hne]
        by (destruct err; auto; right; discriminate).
      * destruct (IH r Hr) as [[-> Hall]|(i & enc & Hi & Hread & Hne & Hbefore)].
        -- left. split; [done|]. intros e [<-|He]; auto.
        -- right. exists (S i), enc. repeat split; try done.
           intros [|j] e Hj He; simpl in He; [by injection He as <-|].
           apply (Hbefore j); [lia|done].
      * right. exists 0%nat, e0.
        assert (r = inr err) as -> by (destruct err; congruence).
        repeat split; try done; [congruence|intros; lia].
Qed.

(** X1: A table returned by load_csv_with_encoding is the table pd.read_csv
    produced with one of the five listed encodings, and every encoding listed
    before that one raised UnicodeDecodeError. *)
Theorem load_csv_with_encoding_table_origin filename t :
  load_csv_with_encoding fs decode parse filename = inl t ->
  exists i enc,
    encodings !! i = Some enc
    /\ read_csv fs decode parse filename enc = inl t
    /\ forall j e, (j < i)%nat -> encodings !! j = Some e ->
         read_csv fs decode parse filename e = inr UnicodeDecodeError.
Proof.
  intros H. destruct (try_encodings_sound filename encodings _ H)
    as [[? _]|(i & enc & Hi & Hr & _ & Hb)]; [done|].
  by exists i, enc.
Qed.

(** X3: When the latin-1 codec decodes every byte string (as Python's does), the
    loader's result is that of utf-8 unless utf-8 raises a decode error and that
    of latin-1 otherwise: iso-8859-1, cp1252 and utf-8-sig are never tried and
    the 'Could not load' exception is never raised. *)
Theorem load_csv_with_encoding_latin1_total filename :
  (forall bytes, decode "latin-1" bytes <> None) ->
  load_csv_with_encoding fs decode parse filename
  = match read_csv fs decode parse filename "utf-8" with
    | inr UnicodeDecodeError => read_csv fs decode parse filename "latin-1"
    | r => r
    end
  /\ forall msg,
       load_csv_with_encoding fs decode parse filename <> inr (Exception msg).
Proof.
  intros Htotal.
  assert (read_csv fs decode parse filename "latin-1" <> inr UnicodeDecodeError)
    as Hl.
  { unfold read_csv. destruct (fs filename) as [b|]; [|done].
    specialize (Htotal b). destruct (decode "latin-1" b); [|done].
    by destruct (parse s). }
  assert (load_csv_with_encoding fs decode parse filename
          = match read_csv fs decode parse filename "utf-8" with
            | inr UnicodeDecodeError => read_csv fs decode parse filename "latin-1"
            | r => r
            end) as Heq.
  { unfold load_csv_with_encoding, encodings. cbn [try_encodings].
    destruct (read_csv fs decode parse filename "utf-8") as [t|[]]; try done.
    destruct (read_csv fs decode parse filename "latin-1") as [t|[]]; done. }
  split; [exact Heq|]. intros msg. rewrite Heq.
  destruct (read_csv_cases filename "utf-8") as [[t Ht]|[Hd|[Hf|Hp]]];
    [rewrite Ht; done|rewrite Hd|rewrite Hf; done|rewrite Hp; done].
  destruct (read_csv_cases filename "latin-1") as [[t Ht]|[Hd'|[Hf|Hp]]];
    [rewrite Ht; done|done|rewrite Hf; done|rewrite Hp; done].
Qed.

End LoaderMore.

Lemma load_csv_with_encoding_table_origin_witness :
  exists i enc,
    encodings !! i = Some enc
    /\ read_csv sample_fs sample_decode sample_parse "fact_table.csv" enc
       = inl ["a"%string]
    /\ forall j e, (j < i)%nat -> encodings !! j = Some e ->
         read_csv sample_fs sample_decode sample_parse "fact_table.csv" e
         = inr UnicodeDecodeError.
Proof.
  apply (load_csv_with_encoding_table_origin sample_fs sample_decode sample_parse
           "fact_table.csv" ["a"%string]).
  reflexivity.
Defined.

(** * The loader over any reader *)

Section AnyReaderFacts.

Context {Table : Type}.
Variable read : string -> string -> Table + raised.

Lemma try_encodings_any_failure filename encs e :
  try_encodings_any read filename encs = inr e ->
  (e = Known (Exception ("Could not load " +:+ filename +:+ " with any encoding"))
   /\ forall enc, In enc encs ->
        exists e', read filename enc = inr e' /\ is_UnicodeDecodeError e' = true)
  \/ (exists i enc,
        encs !! i = Some enc
        /\ read filename enc = inr e
        /\ is_UnicodeDecodeError e = false
        /\ forall j enc', (j < i)%nat -> encs !! j = Some enc' ->
             exists e', read filename enc' = inr e'
                        /\ is_UnicodeDecodeError e' = true).
Proof.
  induction encs as [|enc0 encs IH]; cbn [try_encodings_any].
  - intros [= <-]. left. split; [done|]. intros enc [].
  - destruct (read filename enc0) as [t|e0] eqn:Hr; [discriminate|].
    destruct (is_UnicodeDecodeError e0) eqn:Hd.
    + intros H. destruct (IH H) as [[-> Hall]|(i & enc & Hi & Hre & Hne & Hb)].
      * left. split; [done|]. intros enc [<-|Hin]; [by exists e0|by apply Hall].
      * right. exists (S i), enc. split; [done|]. split; [done|]. split; [done|].
        intros [|j] enc' Hj Hl; simpl in Hl.
        -- injection Hl as <-. by exists e0.
        -- apply (Hb j); [lia|done].
    + intros [= <-]. right. exists 0%nat, enc0. split; [done|]. split; [done|].
      split; [done|]. intros j enc' Hj. lia.
Qed.

End AnyReaderFacts.

(** On a reader that raises the three exceptions of [read_csv] only, the
    loader over any reader is [load_csv_with_encoding]. *)
Lemma try_encodings_any_known {Table : Type} fs decode
    (parse : string -> option Table) filename encs :
  try_encodings_any (fun f e => known_reader (read_csv fs decode parse f e))
    filename encs
  = known_reader (try_encodings fs decode parse filename encs).
Proof.
  induction encs as [|enc encs IH]; [done|]. cbn [try_encodings_any try_encodings].
  destruct (read_csv fs decode parse filename enc) as [t|[]]; try done.
Qed.

(** X2: Whatever pd.read_csv raises, an exception that leaves
    load_csv_with_encoding is never a UnicodeDecodeError; it is either
    Exception('Could not load <file> with any encoding'), every one of the
    five encodings having raised UnicodeDecodeError, or the exception that
    pd.read_csv raised for the first encoding that did not raise
    UnicodeDecodeError, unchanged. *)
Theorem load_csv_with_encoding_errors {Table : Type}
    (read : string -> string -> Table + raised) (filename : string)
    (e : raised) :
  load_csv_with_encoding_any read filename = inr e ->
  is_UnicodeDecodeError e = false
  /\ ((e = Known (Exception ("Could not load " +:+ filename
                               +:+ " with any encoding"))
       /\ forall enc, In enc encodings ->
            exists e', read filename enc = inr e'
                       /\ is_UnicodeDecodeError e' = true)
      \/ (exists i enc,
            encodings !! i = Some enc
            /\ read filename enc = inr e
            /\ forall j enc', (j < i)%nat -> encodings !! j = Some enc' ->
                 exists e', read filename enc' = inr e'
                            /\ is_UnicodeDecodeError e' = true)).
Proof.
  intros H.
  destruct (try_encodings_any_failure read _ _ _ H)
    as [[-> Hall]|(i & enc & Hi & Hr & Hne & Hb)].
  - split; [done|]. by left.
  - split; [done|]. right. by exists i, enc.
Qed.

(** X2, at a file the process may not read: the PermissionError of the
    first call leaves the loader. *)
Lemma load_csv_with_encoding_errors_witness :
  exists i enc,
    encodings !! i = Some enc
    /\ permission_denied "customer_dim.csv" enc = inr (Other "PermissionError").
Proof.
  destruct (proj2 (load_csv_with_encoding_errors permission_denied
                     "customer_dim.csv" (Other "PermissionError") eq_refl))
    as [[H _]|(i & enc & Hi & Hr & _)].
  - discriminate H.
  - exists i, enc. split; [exact Hi|exact Hr].
Defined.

Lemma load_csv_with_encoding_latin1_total_witness :
  load_csv_with_encoding sample_fs any_decode sample_parse "fact_table.csv"
  = inl ["a"%string].
Proof.
  refine (eq_trans (proj1 (load_csv_with_encoding_latin1_total sample_fs
                             any_decode sample_parse "fact_table.csv" _)) _).
  - intros bytes. discriminate.
  - reflexivity.
Defined.

(** * More on strings *)

Lemma str_length_app s t :
  String.length (s +:+ t) = (String.length s + String.length t)%nat.
Proof. induction s as [|c s IH]; [done|]. rewrite app_cons. simpl. by rewrite IH. Qed.

Lemma split_go_skip sep u rest cur :
  split_go sep (u +:+ rest) (String.length u) cur = split_go sep rest 0 cur.
Proof. induction u as [|c u IH]; [done|]. rewrite app_cons. simpl. exact IH. Qed.

Lemma split_go_nonempty sep s k cur : split_go sep s k cur <> [].
Proof.
  revert k cur. induction s as [|c s IH]; intros k cur; cbn [split_go]; [done|].
  destruct k; [|apply IH].
  destruct (String.prefix sep (String c s)); [intros ?; discriminate|apply IH].
Qed.

Lemma join_cons sep p l : l <> [] -> join sep (p :: l) = p +:+ sep +:+ join sep l.
Proof. by destruct l. Qed.

Lemma join_split_go a sep' n s cur :
  (String.length s <= n)%nat ->
  join (String a sep') (split_go (String a sep') s 0 cur) = cur +:+ s.
Proof.
  revert s cur. induction n as [|n IH]; intros s cur Hn.
  - destruct s; [|simpl in Hn; lia]. simpl. by rewrite app_empty_r.
  - destruct s as [|c s]; [simpl; by rewrite app_empty_r|].
    cbn [split_go].
    destruct (String.prefix (String a sep') (String c s)) eqn:Hp.
    + apply prefix_true_iff in Hp as [rest Hrest]. rewrite app_cons in Hrest.
      injection Hrest as -> ->.
      replace (String.length (String a sep') - 1)%nat with (String.length sep')
        by (simpl; lia).
      rewrite split_go_skip, join_cons by apply split_go_nonempty.
      rewrite IH.
      * by rewrite app_empty_l, app_cons.
      * simpl in Hn. rewrite str_length_app in Hn. lia.
    + rewrite IH by (simpl in Hn; lia).
      by rewrite str_app_assoc, app_cons, app_empty_l.
Qed.

(** X4: For a non-empty separator, joining the pieces of s.split(sep) with sep
    gives back s. *)
Theorem join_split sep s :
  sep <> EmptyString -> join sep (split sep s) = s.
Proof.
  intros Hsep. destruct sep as [|a sep']; [done|]. unfold split.
  by rewrite (join_split_go a sep' (String.length s)).
Qed.

Lemma join_split_witness :
  join " - " (split " - " "Home - Kitchen - Pans") = "Home - Kitchen - Pans"%string.
Proof. apply join_split. discriminate. Defined.

Lemma first_occurrence sep s :
  contains sep s = true -> exists p, before_first sep s p.
Proof.
  induction s as [|c s IH]; cbn [contains].
  - rewrite orb_false_r. intros [r Hr]%prefix_true_iff.
    exists EmptyString. split; [by exists r|]. intros; simpl; lia.
  - destruct (String.prefix sep (String c s)) eqn:Hp.
    + intros _. apply prefix_true_iff in Hp as [r Hr].
      exists EmptyString. split; [by exists r|]. intros; simpl; lia.
    + simpl. intros [p [[r Hr] Hmin]]%IH. exists (String c p). split.
      * exists r. by rewrite app_cons, <- Hr.
      * intros [|c' p'] r' H.
        -- rewrite app_empty_l in H.
           assert (String.prefix sep (String c s) = true) as Hp'
             by (apply prefix_true_iff; by exists r').
           congruence.
        -- rewrite app_cons in H. injection H as -> H.
           specialize (Hmin p' r' H). simpl. lia.
Qed.

Lemma before_first_no_occurrence sep s p :
  sep <> EmptyString -> before_first sep s p -> ~ occurs sep p.
Proof.
  intros Hsep [[r ->] Hmin] (p1 & r1 & ->).
  specialize (Hmin p1 (r1 +:+ sep +:+ r)).
  rewrite !str_app_assoc in Hmin. specialize (Hmin eq_refl).
  rewrite !str_length_app in Hmin. destruct sep; [done|]. simpl in Hmin. lia.
Qed.

Lemma occurs_in_trim sep s t : is_trim_of s t -> occurs sep t -> occurs sep s.
Proof.
  intros (a & b & -> & _) (p & r & ->).
  exists (a +:+ p), (r +:+ b). by rewrite !str_app_assoc.
Qed.

Lemma lstrip_fixed t : not_space (first_char t) -> lstrip t = t.
Proof. destruct t as [|c t]; [done|]. simpl. by intros ->. Qed.

Lemma rstrip_fixed t : not_space (last_char t) -> rstrip t = t.
Proof.
  induction t as [|c t IH]; [done|]. cbn [last_char rstrip].
  destruct (last_char t) as [d|] eqn:Hl.
  - intros H. rewrite (IH H). destruct t; [done|done].
  - intros H. destruct t as [|e t]; [|simpl in Hl; by destruct (last_char t)].
    simpl in *. by rewrite H.
Qed.

Lemma strip_fixed t :
  not_space (first_char t) -> not_space (last_char t) -> strip t = t.
Proof. intros H1 H2. unfold strip. by rewrite (lstrip_fixed t H1), rstrip_fixed. Qed.

Lemma strip_idempotent s : strip (strip s) = strip s.
Proof.
  destruct (strip_is_trim s) as (a & b & _ & _ & _ & H1 & H2).
  by apply strip_fixed.
Qed.

(** X5: Every main category, also the one of a missing description, has no
    surrounding whitespace, does not contain the delimiter ' - ', and is its own
    main category (deriving the category again changes nothing). *)
Theorem main_category_normal_form (x : option string) :
  strip (main_category_of x) = main_category_of x
  /\ ~ occurs " - " (main_category_of x)
  /\ main_category_of (Some (main_category_of x)) = main_category_of x.
Proof.
  assert (strip (main_category_of x) = main_category_of x) as Hstrip.
  { unfold main_category_of. destruct x as [s|]; [|reflexivity].
    destruct (contains " - " s); apply strip_idempotent. }
  assert (~ occurs " - " (main_category_of x)) as Hocc.
  { unfold main_category_of. destruct x as [s|].
    - destruct (contains " - " s) eqn:Hc.
      + destruct (first_occurrence _ _ Hc) as [p Hp].
        rewrite (split_head_before_first " - " s p) by done.
        intros H%(occurs_in_trim _ p); [|apply strip_is_trim].
        by apply (before_first_no_occurrence " - " s p).
      + intros H%(occurs_in_trim _ s); [|apply strip_is_trim].
        apply contains_iff in H. congruence.
    - intros H%contains_iff. discriminate. }
  split; [done|]. split; [done|].
  unfold main_category_of at 1.
  destruct (contains " - " (main_category_of x)) eqn:Hc.
  - by apply contains_iff in Hc.
  - exact Hstrip.
Qed.

(** * More on the joins *)

Section MergeMore.

Context {L R : Type} (kl : L -> string) (kr : R -> string).

Lemma merge_left_covers (left : list L) (right : list R) (l : L) :
  In l left -> exists o, In (l, o) (merge_left kl kr left right).
Proof.
  intros Hl. unfold merge_left.
  destruct (List.filter (fun r => String.eqb (kr r) (kl l)) right) as [|r ms] eqn:Hf.
  - exists None. apply in_flat_map. exists l. split; [done|]. rewrite Hf. by left.
  - exists (Some r). apply in_flat_map. exists l. split; [done|]. rewrite Hf. by left.
Qed.

Lemma merge_left_length (left : list L) (right : list R) :
  (length left <= length (merge_left kl kr left right))%nat.
Proof.
  unfold merge_left. induction left as [|l left IH]; [done|].
  cbn [flat_map]. rewrite length_app.
  set (n := length (flat_map _ left)) in *. clearbody n.
  destruct (List.filter _ right); cbn [length map]; lia.
Qed.

Lemma merge_left_snd_in (left : list L) (right : list R) (l : L) (r : R) :
  In (l, Some r) (merge_left kl kr left right) -> In r right /\ kr r = kl l.
Proof.
  unfold merge_left. rewrite in_flat_map. intros (l0 & Hl0 & Hx).
  destruct (List.filter _ right) as [|r0 ms] eqn:Hf.
  - by destruct Hx as [|[]].
  - apply in_map_iff in Hx as (r1 & [= -> ->] & Hr1). rewrite <- Hf in Hr1.
    apply filter_In in Hr1 as [Hin Hk]. by apply String.eqb_eq in Hk.
Qed.

Lemma merge_left_matched (left : list L) (right : list R) (x : L * option R) (r : R) :
  NoDup (map kr right) ->
  In x (merge_left kl kr left right) ->
  In r right -> kr r = kl (fst x) ->
  snd x = Some r.
Proof.
  intros Hnd. unfold merge_left. rewrite in_flat_map. intros (l & Hl & Hx) Hr Hk.
  pose proof (filter_key_NoDup kr right (kl l) Hnd) as Hlen.
  assert (fst x = l) as Hfst.
  { destruct (List.filter _ right); [by destruct Hx as [<-|[]]|].
    by apply in_map_iff in Hx as (? & <- & _). }
  subst l.
  assert (In r (List.filter (fun r => String.eqb (kr r) (kl (fst x))) right)) as Hin.
  { apply filter_In. split; [done|]. by apply String.eqb_eq. }
  destruct (List.filter _ right) as [|r0 [|r1 ms]]; [done| |simpl in Hlen; lia].
  destruct Hin as [->|[]]. by destruct Hx as [<-|[]].
Qed.

End MergeMore.

Lemma merged_covers T f :
  In f (fact_table T) -> exists x, In x (merged T) /\ fact_of x = f.
Proof.
  intros H0. unfold merged.
  destruct (merge_left_covers fact_coustomer_key cust_coustomer_key
              _ (customer_dim T) _ H0) as [c H1].
  destruct (merge_left_covers (fun x => fact_item_key (fst x)) item_item_key
              _ (item_dim T) _ H1) as [i H2].
  destruct (merge_left_covers (fun x => fact_store_key (fst (fst x)))
              store_store_key _ (store_dim T) _ H2) as [s H3].
  destruct (merge_left_covers (fun x => fact_time_key (fst (fst (fst x))))
              time_time_key _ (time_dim T) _ H3) as [t H4].
  destruct (merge_left_covers
              (fun x => fact_payment_key (fst (fst (fst (fst x)))))
              trans_payment_key _ (map clean_trans (trans_dim T)) _ H4) as [p H5].
  by exists (f, c, i, s, t, p).
Qed.

Lemma merged_fact_in T x : In x (merged T) -> In (fact_of x) (fact_table T).
Proof.
  unfold merged, fact_of. intros H5.
  pose proof (merge_left_fst_in _ _ _ _ _ H5) as H4.
  pose proof (merge_left_fst_in _ _ _ _ _ H4) as H3.
  pose proof (merge_left_fst_in _ _ _ _ _ H3) as H2.
  pose proof (merge_left_fst_in _ _ _ _ _ H2) as H1.
  exact (merge_left_fst_in _ _ _ _ _ H1).
Qed.

(** X6: Whether or not dimension keys are unique, every fact row appears in the
    unified table at least once, every unified record carries the columns of
    some fact row, and the unified table is at least as long as the fact table. *)
Theorem fact_rows_never_dropped T :
  (forall f, In f (fact_table T) ->
     exists r, In r (comprehensive_data T) /\ fact_columns r = f)
  /\ (forall r, In r (comprehensive_data T) -> In (fact_columns r) (fact_table T))
  /\ (length (fact_table T) <= length (comprehensive_data T))%nat.
Proof.
  split; [|split].
  - intros f Hf. destruct (merged_covers T f Hf) as (x & Hx & <-).
    exists (unified_of x). split; [by apply in_map|apply fact_columns_unified].
  - intros r (x & <- & Hx)%in_map_iff. rewrite fact_columns_unified.
    by apply merged_fact_in.
  - unfold comprehensive_data, merged. rewrite length_map.
    repeat (etrans; [|apply merge_left_length]). done.
Qed.

(** X7: With unique keys in each dimension table, a unified record whose key
    equals the key of a dimension row carries exactly that row's attributes:
    name; item name, main category of its description, country and supplier;
    division and district; date, year, month, quarter and the weekday of the
    date; transaction type and the cleaned bank name. *)
Theorem joined_attributes T r :
  NoDup (map cust_coustomer_key (customer_dim T)) ->
  NoDup (map item_item_key (item_dim T)) ->
  NoDup (map store_store_key (store_dim T)) ->
  NoDup (map time_time_key (time_dim T)) ->
  NoDup (map trans_payment_key (trans_dim T)) ->
  In r (comprehensive_data T) ->
  (forall c, In c (customer_dim T) -> cust_coustomer_key c = coustomer_key r ->
     name r = Some (cust_name c))
  /\ (forall i, In i (item_dim T) -> item_item_key i = item_key r ->
        item_name r = Some (item_item_name i)
        /\ main_category r = Some (main_category_of (item_desc i))
        /\ man_country r = Some (item_man_country i)
        /\ supplier r = Some (item_supplier i))
  /\ (forall s, In s (store_dim T) -> store_store_key s = store_key r ->
        division r = Some (store_division s)
        /\ district r = Some (store_district s))
  /\ (forall t, In t (time_dim T) -> time_time_key t = time_key r ->
        date r = time_date t /\ year r = Some (time_year t)
        /\ month r = Some (time_month t) /\ quarter r = Some (time_quarter t)
        /\ weekday r = day_name <$> time_date t)
  /\ (forall p, In p (trans_dim T) -> trans_payment_key p = payment_key r ->
        trans_type r = Some (trans_trans_type p)
        /\ bank_name r = replace_None (trans_bank_name p)).
Proof.
  intros Hc Hi Hs Ht Hp (x & <- & H5)%in_map_iff. unfold merged in H5.
  pose proof (merge_left_fst_in _ _ _ _ _ H5) as H4.
  pose proof (merge_left_fst_in _ _ _ _ _ H4) as H3.
  pose proof (merge_left_fst_in _ _ _ _ _ H3) as H2.
  pose proof (merge_left_fst_in _ _ _ _ _ H2) as H1.
  destruct x as [[[[[f c] i] s] t] p]. cbn in *.
  split; [|split; [|split; [|split]]].
  - intros c0 Hin Hk.
    pose proof (merge_left_matched _ _ _ _ _ c0 Hc H1 Hin Hk) as E.
    cbn in E. by rewrite E.
  - intros i0 Hin Hk.
    pose proof (merge_left_matched _ _ _ _ _ i0 Hi H2 Hin Hk) as E.
    cbn in E. by rewrite E.
  - intros s0 Hin Hk.
    pose proof (merge_left_matched _ _ _ _ _ s0 Hs H3 Hin Hk) as E.
    cbn in E. by rewrite E.
  - intros t0 Hin Hk.
    pose proof (merge_left_matched _ _ _ _ _ t0 Ht H4 Hin Hk) as E.
    cbn in E. by rewrite E.
  - intros p0 Hin Hk.
    assert (NoDup (map trans_payment_key (map clean_trans (trans_dim T))))
      as Hp' by by rewrite map_clean_trans_keys.
    pose proof (merge_left_matched _ _ _ _ _ (clean_trans p0) Hp' H5
                  (in_map clean_trans _ _ Hin) Hk) as E.
    cbn in E. by rewrite E.
Qed.

Lemma replace_None_not_None x : replace_None x <> Some "None"%string.
Proof.
  destruct x as [s|]; [|done]. simpl.
  destruct (String.eqb_spec s "None"); [done|congruence].
Qed.

Lemma unified_bank_name_clean T r :
  In r (comprehensive_data T) -> bank_name r <> Some "None"%string.
Proof.
  intros (x & <- & H5)%in_map_iff. unfold merged in H5.
  destruct x as [[[[[f c] i] s] t] [p|]]; cbn; [|done].
  apply merge_left_snd_in in H5 as [(p0 & <- & _)%in_map_iff _].
  apply replace_None_not_None.
Qed.

(** X8: No record of the unified table has the string 'None' as bank name; with
    unique payment keys, a record that matches a transaction row whose bank name
    is 'None' has a missing bank name. *)
Theorem bank_name_never_None_literal T r :
  In r (comprehensive_data T) ->
  bank_name r <> Some "None"%string
  /\ forall p, In p (trans_dim T) -> trans_payment_key p = payment_key r ->
       trans_bank_name p = Some "None"%string ->
       NoDup (map trans_payment_key (trans_dim T)) ->
       bank_name r = None.
Proof.
  intros Hr. split; [by apply (unified_bank_name_clean T)|].
  intros p Hp Hk Hb Hnd.
  apply in_map_iff in Hr as (x & <- & H5). unfold merged in H5.
  assert (NoDup (map trans_payment_key (map clean_trans (trans_dim T))))
    as Hnd' by by rewrite map_clean_trans_keys.
  destruct x as [[[[[f c] i] s] t] o]. cbn in *.
  pose proof (merge_left_matched _ _ _ _ _ (clean_trans p) Hnd' H5
                (in_map clean_trans _ _ Hp) Hk) as E.
  cbn in E. rewrite E. cbn. by rewrite Hb.
Qed.

Lemma day_name_in_weekdays ts : In (day_name ts) weekdays.
Proof.
  unfold day_name. apply nth_In. change (length weekdays) with 7%nat.
  pose proof (Z.mod_pos_bound (to_date ts + 3) 7). lia.
Qed.

(** The weekday has a period of seven days. *)
Lemma day_name_periodic ts k :
  day_name (ts + k * (7 * ns_per_day)) = day_name ts
  /\ In (day_name ts) weekdays.
Proof.
  split; [|apply day_name_in_weekdays]. unfold day_name, to_date.
  replace (ts + k * (7 * ns_per_day)) with (ts + (k * 7) * ns_per_day) by lia.
  rewrite Z.div_add by done.
  replace (ts / ns_per_day + k * 7 + 3) with (ts / ns_per_day + 3 + k * 7) by lia.
  by rewrite Z.mod_add.
Qed.

(** * More on the filters *)

Lemma filter_and {A} (f g : A -> bool) (l : list A) :
  List.filter g (List.filter f l) = List.filter (fun x => f x && g x) l.
Proof.
  induction l as [|a l IH]; [done|]. simpl.
  destruct (f a); simpl; [destruct (g a)|]; by rewrite IH.
Qed.

Lemma filter_true {A} (l : list A) : List.filter (fun _ => true) l = l.
Proof. induction l as [|a l IH]; [done|]. simpl. by rewrite IH. Qed.

Lemma filter_sublist {A} (f : A -> bool) (l : list A) :
  sublist (List.filter f l) l.
Proof.
  induction l as [|a l IH]; simpl; [constructor|].
  destruct (f a); by constructor.
Qed.

Lemma apply_filters_mask date_range divisions payment_methods data :
  apply_filters date_range divisions payment_methods data
  = List.filter (passes date_range divisions payment_methods) data.
Proof.
  unfold apply_filters.
  set (d := fun r : UnifiedRecord =>
              match date_range with
              | [lo; hi] => date_between lo hi r
              | _ => true
              end).
  set (v := fun r : UnifiedRecord =>
              match divisions with
              | [] => true
              | _ => isin (division r) divisions
              end).
  set (p := fun r : UnifiedRecord =>
              match payment_methods with
              | [] => true
              | _ => isin (trans_type r) payment_methods
              end).
  assert (match date_range with
          | [lo; hi] => List.filter (date_between lo hi) data
          | _ => data
          end = List.filter d data) as ->.
  { unfold d. destruct date_range as [|lo [|hi [|]]];
      by rewrite ?filter_true. }
  assert (forall l, match divisions with
                    | [] => l
                    | _ => List.filter (fun r => isin (division r) divisions) l
                    end = List.filter v l) as ->.
  { intros l. unfold v. destruct divisions; by rewrite ?filter_true. }
  assert (forall l, match payment_methods with
                    | [] => l
                    | _ => List.filter
                             (fun r => isin (trans_type r) payment_methods) l
                    end = List.filter p l) as ->.
  { intros l. unfold p. destruct payment_methods; by rewrite ?filter_true. }
  rewrite !filter_and. apply filter_ext. intros r. apply andb_assoc.
Qed.

(** X10: The three sidebar filters together are one stable filter by the
    conjunction of the switched-on masks: the result is a sublist of the input
    (same order, nothing added) and no longer than it. *)
Theorem apply_filters_stable date_range divisions payment_methods data :
  apply_filters date_range divisions payment_methods data
  = List.filter (passes date_range divisions payment_methods) data
  /\ sublist (apply_filters date_range divisions payment_methods data) data
  /\ (length (apply_filters date_range divisions payment_methods data)
      <= length data)%nat.
Proof.
  rewrite apply_filters_mask. split; [done|]. split; [apply filter_sublist|].
  apply sublist_length, filter_sublist.
Qed.

(** X11: Filtering is idempotent, and two filterings with different selections
    give the same table in either order. *)
Theorem apply_filters_commute dr divs pms dr' divs' pms' data :
  apply_filters dr divs pms (apply_filters dr divs pms data)
  = apply_filters dr divs pms data
  /\ apply_filters dr divs pms (apply_filters dr' divs' pms' data)
     = apply_filters dr' divs' pms' (apply_filters dr divs pms data).
Proof.
  rewrite !apply_filters_mask, !filter_and. split.
  - apply filter_ext. intros r. by destruct (passes dr divs pms r).
  - apply filter_ext. intros r. apply andb_comm.
Qed.

Lemma unique_from_covers seen col x :
  In x col -> existsb (cell_eqb x) (seen ++ unique_from seen col) = true.
Proof.
  revert seen. induction col as [|y col IH]; intros seen; [done|].
  intros [->|Hx]; simpl.
  - destruct (existsb (cell_eqb x) seen) eqn:E.
    + rewrite existsb_app, E. done.
    + rewrite existsb_app. simpl.
      assert (cell_eqb x x = true) as -> by (destruct x; simpl; [apply String.eqb_refl|done]).
      by rewrite orb_true_r.
  - destruct (existsb (cell_eqb y) seen) eqn:E.
    + by apply IH.
    + specialize (IH (y :: seen) Hx). rewrite existsb_app in *. simpl in *.
      rewrite <- IH. destruct (cell_eqb x y), (existsb (cell_eqb x) seen); simpl; done.
Qed.

Lemma isin_unique col x : In x col -> isin x (unique col) = true.
Proof. intros H. exact (unique_from_covers [] col x H). Qed.

Lemma date_between_full data lo hi r :
  series_min (map date data) = Some lo ->
  series_max (map date data) = Some hi ->
  In r data ->
  date_between (to_date lo) (to_date hi) r = has_date r.
Proof.
  intros Hlo Hhi Hr. unfold date_between, has_date.
  destruct (date r) as [ts|] eqn:Hts; [|done].
  assert (In (Some ts) (map date data)) as Hin.
  { rewrite <- Hts. by apply in_map. }
  pose proof (series_min_le _ _ _ Hlo Hin).
  pose proof (series_max_ge _ _ _ Hhi Hin).
  apply andb_true_iff. split; apply Z.leb_le; by apply to_date_mono.
Qed.

(** X12: With the widgets' defaults (every distinct division value and payment
    value of the table selected, the date range from the earliest to the latest
    date) the filters keep exactly the records that have a date. *)
Theorem default_filters_keep_dated_records data range :
  full_date_range data = Some range ->
  apply_filters range (unique (map division data))
    (unique (map trans_type data)) data
  = List.filter has_date data.
Proof.
  unfold full_date_range. intros Hrange.
  destruct (series_min (map date data)) as [lo|] eqn:Hlo; [|done].
  destruct (series_max (map date data)) as [hi|] eqn:Hhi; [|done].
  injection Hrange as <-. rewrite apply_filters_mask.
  apply filter_ext_in. intros r Hr. unfold passes.
  rewrite (date_between_full data lo hi r Hlo Hhi Hr).
  assert (isin (division r) (unique (map division data)) = true) as Hd
    by (apply isin_unique; by apply in_map).
  assert (isin (trans_type r) (unique (map trans_type data)) = true) as Hp
    by (apply isin_unique; by apply in_map).
  destruct (unique (map division data)), (unique (map trans_type data));
    rewrite ?Hd, ?Hp; by rewrite ?andb_true_r.
Qed.

Lemma default_filters_keep_dated_records_witness :
  apply_filters [0; 0] (unique (map division null_date_data))
    (unique (map trans_type null_date_data)) null_date_data
  = List.filter has_date null_date_data.
Proof.
  apply (default_filters_keep_dated_records null_date_data [0; 0]). reflexivity.
Defined.

(** * More on the aggregations *)





(** ** Group keys and conservation of the total *)






#[local] Instance String_le_trans : Transitive String.le.
Proof. apply _. Qed.

(** One group per key, in sorted order. *)
Lemma group_keys_sorted (col : list (option string)) :
  StronglySorted String.le (group_keys col)
  /\ NoDup (group_keys col)
  /\ (forall k, In k (group_keys col) <-> In (Some k) col).
Proof.
  split; [|split; [apply NoDup_group_keys|apply In_group_keys]].
  apply StronglySorted_merge_sort; apply _.
Qed.

(** ** Rankings *)

#[local] Instance Qge_snd_trans : Transitive Qge_snd.
Proof.
  intros a b c. unfold Qge_snd. rewrite !Is_true_true, !Qle_bool_iff.
  intros H1 H2. by apply Qle_trans with (snd b).
Qed.

#[local] Instance Qge_snd_total : Total Qge_snd.
Proof.
  intros a b. unfold Qge_snd. rewrite !Is_true_true, !Qle_bool_iff.
  destruct (Qlt_le_dec (snd a) (snd b)) as [H|H]; [right|left];
    [by apply Qlt_le_weak|done].
Qed.

(** X15: sort_values(ascending=False).head(n) returns min(n, number of groups)
    entries, all of them entries of the input, in descending order of value, and
    no entry left out has a larger value than an entry kept. *)
Theorem top_ranks n (s : list (string * Q)) :
  length (top n s) = min n (length s)
  /\ (forall kv, In kv (top n s) -> In kv s)
  /\ StronglySorted Qge_snd (top n s)
  /\ (forall kept left_out,
        In kept (top n s) -> In left_out s -> ~ In left_out (top n s) ->
        (snd left_out <= snd kept)%Q).
Proof.
  unfold top. pose proof (merge_sort_Permutation Qge_snd s) as Hperm.
  assert (StronglySorted Qge_snd (merge_sort Qge_snd s)) as Hs
    by (apply StronglySorted_merge_sort; apply _).
  rewrite <- (take_drop n (merge_sort Qge_snd s)) in Hs.
  split; [|split; [|split]].
  - rewrite length_take. by rewrite Hperm.
  - intros kv Hkv%list_elem_of_In. apply list_elem_of_In. rewrite <- Hperm.
    by apply (subseteq_take n).
  - by apply StronglySorted_app_1_l in Hs.
  - intros kept out Hk Ho Hno.
    assert (out ∈ drop n (merge_sort Qge_snd s)) as Hd.
    { apply list_elem_of_In in Ho. rewrite <- Hperm in Ho.
      rewrite <- (take_drop n (merge_sort Qge_snd s)) in Ho.
      apply elem_of_app in Ho as [Ho|Ho]; [|done].
      by apply list_elem_of_In in Ho. }
    apply list_elem_of_In in Hk.
    pose proof (StronglySorted_app_1_elem_of _ _ _ _ _ Hs Hk Hd) as H.
    unfold Qge_snd in H. by apply Is_true_true, Qle_bool_iff in H.
Qed.

Lemma top_ranks_witness :
  (snd ("b"%string, 1%Q) <= snd ("a"%string, 2%Q))%Q.
Proof.
  refine (proj2 (proj2 (proj2 (top_ranks 1 [("b"%string, 1%Q); ("a"%string, 2%Q)])))
            ("a"%string, 2%Q) ("b"%string, 1%Q) _ _ _).
  - vm_compute. by left.
  - by left.
  - vm_compute. intros [H|[]]. discriminate.
Defined.

(** ** Revenue by weekday and by bank *)

Lemma find_key_map {B} (g : string -> B) (K : list string) (l : string) :
  List.find (fun kv => String.eqb (fst kv) l) (map (fun k => (k, g k)) K)
  = if existsb (String.eqb l) K then Some (l, g l) else None.
Proof.
  induction K as [|k K IH]; [done|]. simpl.
  rewrite (String.eqb_sym l k).
  destruct (String.eqb_spec k l) as [->|]; [done|]. exact IH.
Qed.

Lemma existsb_group_keys key data d :
  existsb (String.eqb d) (group_keys (map key data))
  = existsb (has_key key d) data.
Proof.
  apply eq_true_iff_eq. rewrite !existsb_exists. split.
  - intros (k & Hk & ->%String.eqb_eq). apply In_group_keys in Hk.
    apply in_map_iff in Hk as (r & Hr & Hin). exists r. split; [done|].
    unfold has_key. rewrite Hr. apply String.eqb_refl.
  - intros (r & Hin & Hr). unfold has_key in Hr.
    destruct (key r) as [s|] eqn:Hs; [|done]. apply String.eqb_eq in Hr as ->.
    exists d. split; [|apply String.eqb_refl].
    apply In_group_keys. rewrite <- Hs. by apply in_map.
Qed.

(** X16: The revenue by weekday always has the seven entries Monday to Sunday in
    that order; the value of a weekday is the sum of the total prices of the
    records on that weekday, and NaN when there is no such record. *)
Theorem weekday_revenue_by_day data :
  weekday_revenue data
  = map (fun d =>
           (d, if existsb (has_key weekday d) data
               then Fin (Qsum (map total_price
                                 (List.filter (has_key weekday d) data)))
               else NaN))
        weekdays
  /\ map fst (weekday_revenue data) = weekdays.
Proof.
  assert (weekday_revenue data
          = map (fun d =>
                   (d, if existsb (has_key weekday d) data
                       then Fin (Qsum (map total_price
                                         (List.filter (has_key weekday d) data)))
                       else NaN))
                weekdays) as H.
  { unfold weekday_revenue, reindex, groupby_sum. apply map_ext. intros d.
    rewrite find_key_map, existsb_group_keys.
    by destruct (existsb (has_key weekday d) data). }
  split; [exact H|]. rewrite H, map_map. apply map_id.
Qed.

(** X17: The bank ranking has at most 8 entries and every bank in it is the bank
    name of some record paid by card; on the unified table the string 'None'
    never appears among the banks. *)
Theorem bank_revenue_banks data :
  (length (bank_revenue data) <= 8)%nat
  /\ (forall b v, In (b, v) (bank_revenue data) ->
        exists r, In r data /\ trans_type r = Some "card"%string
                  /\ bank_name r = Some b)
  /\ (forall T b v, data = comprehensive_data T ->
        In (b, v) (bank_revenue data) -> b <> "None"%string).
Proof.
  assert (forall b v, In (b, v) (bank_revenue data) ->
            exists r, In r data /\ trans_type r = Some "card"%string
                      /\ bank_name r = Some b) as H.
  { intros b v Hin. unfold bank_revenue, top in Hin.
    apply list_elem_of_In, (subseteq_take 8) in Hin.
    rewrite merge_sort_Permutation in Hin. apply list_elem_of_In in Hin.
    unfold groupby_sum in Hin. apply in_map_iff in Hin as (k & [= -> _] & Hk).
    apply In_group_keys, in_map_iff in Hk as (r & Hr & Hin).
    apply filter_In in Hin as [Hin Hc]. exists r. split; [done|]. split; [|done].
    apply andb_true_iff in Hc as [Hc _]. unfold cell_eqb in Hc.
    destruct (trans_type r) as [s|]; [|done]. by apply String.eqb_eq in Hc as ->. }
  split; [|split; [exact H|]].
  - unfold bank_revenue, top. rewrite length_take. lia.
  - intros T b v -> Hin ->. destruct (H _ _ Hin) as (r & Hr & _ & Hb).
    by apply (unified_bank_name_clean T r).
Qed.

(** * More on customer metrics *)

Lemma Zsum_filter_disjoint {A} (f : A -> Z) (a b : A -> bool) (l : list A) :
  (forall x, a x && b x = false) ->
  fold_right Z.add 0 (map f (List.filter (fun x => a x || b x) l))
  = fold_right Z.add 0 (map f (List.filter a l))
    + fold_right Z.add 0 (map f (List.filter b l)).
Proof.
  intros Hd. induction l as [|x l IH]; simpl; [done|].
  specialize (Hd x). destruct (a x), (b x); simpl in *; try done; lia.
Qed.

Lemma group_Zsums_add_up (f : UnifiedRecord -> Z) key (K : list string) data :
  NoDup K ->
  fold_right Z.add 0
    (map (fun k => fold_right Z.add 0 (map f (List.filter (has_key key k) data))) K)
  = fold_right Z.add 0 (map f (List.filter (key_in key K) data)).
Proof.
  induction K as [|k K IH]; intros Hnd.
  - simpl. rewrite (filter_ext (key_in key []) (fun _ => false)).
    + by induction data.
    + intros r. unfold key_in. by destruct (key r).
  - apply NoDup_cons in Hnd as [Hk Hnd]. cbn [map fold_right]. rewrite (IH Hnd).
    rewrite <- Zsum_filter_disjoint.
    + f_equal. f_equal. apply filter_ext.
      intros r. unfold key_in, has_key. by destruct (key r).
    + intros r. unfold key_in, has_key. destruct (key r) as [s|]; [|done].
      destruct (String.eqb_spec s k) as [->|]; [|done]. simpl.
      apply not_true_iff_false. intros (k' & Hin & ->%String.eqb_eq)%existsb_exists.
      apply Hk. by apply list_elem_of_In.
Qed.

Lemma key_in_customers data r :
  In r data ->
  key_in (fun r => Some (coustomer_key r))
    (group_keys (map (fun r => Some (coustomer_key r)) data)) r = true.
Proof.
  intros Hr. unfold key_in. apply existsb_exists. exists (coustomer_key r).
  split; [|apply String.eqb_refl]. apply In_group_keys.
  by apply (in_map (fun r => Some (coustomer_key r))).
Qed.

Lemma length_as_Zsum {A} (l : list A) :
  Z.of_nat (length l) = fold_right Z.add 0 (map (fun _ => 1) l).
Proof. induction l as [|x l IH]; simpl length; cbn [map fold_right]; lia. Qed.

Lemma customer_Zsums (f : UnifiedRecord -> Z) data :
  fold_right Z.add 0
    (map (fun k => fold_right Z.add 0 (map f (orders_of k data)))
       (group_keys (map (fun r => Some (coustomer_key r)) data)))
  = fold_right Z.add 0 (map f data).
Proof.
  rewrite (group_Zsums_add_up f (fun r => Some (coustomer_key r)) _ data
             (NoDup_group_keys _)).
  f_equal. f_equal. etrans; [|apply (filter_true data)].
  apply filter_ext_in. intros r Hr. by apply key_in_customers.
Qed.

(** X18: Every row of the customer metrics has an order count of at least 1; the
    order counts add up to the number of records and the total quantities add up
    to the total quantity of the table. *)
Theorem customer_metrics_account_for_every_record data :
  (forall row, In row (customer_metrics data) -> 1 <= Order_Count row)
  /\ fold_right Z.add 0 (map Order_Count (customer_metrics data))
     = Z.of_nat (length data)
  /\ fold_right Z.add 0 (map Total_Quantity (customer_metrics data))
     = fold_right Z.add 0 (map quantity data).
Proof.
  split; [|split].
  - intros row (k & <- & Hk)%in_map_iff. cbn [Order_Count].
    apply In_group_keys, in_map_iff in Hk as (r & [= <-] & Hr).
    assert (In r (orders_of (coustomer_key r) data)) as Hin.
    { apply filter_In. split; [done|apply String.eqb_refl]. }
    destruct (orders_of (coustomer_key r) data); [done|simpl; lia].
  - unfold customer_metrics. rewrite map_map. cbn [Order_Count].
    rewrite length_as_Zsum, <- (customer_Zsums (fun _ => 1) data).
    f_equal. apply map_ext. intros k. apply length_as_Zsum.
  - unfold customer_metrics. rewrite map_map. cbn [Total_Quantity].
    apply customer_Zsums.
Qed.

(** X19: segment_customers always returns one of its four labels; it returns
    'One-time Buyers' exactly when the order count is below 2, whatever the
    customer spent and whoever else is in the population; 'Regular Customers'
    needs at least 2 orders, 'Loyal Customers' at least 3 and 'VIP Customers' at
    least 5. *)
Theorem segment_by_order_count (pop : list CustomerMetric) (row : CustomerMetric) :
  In (segment_customers pop row)
     ["VIP Customers"; "Loyal Customers"; "Regular Customers";
      "One-time Buyers"]%string
  /\ (segment_customers pop row = "One-time Buyers"%string
      <-> Order_Count row < 2)
  /\ (segment_customers pop row = "Regular Customers"%string ->
      2 <= Order_Count row)
  /\ (segment_customers pop row = "Loyal Customers"%string ->
      3 <= Order_Count row)
  /\ (segment_customers pop row = "VIP Customers"%string ->
      5 <= Order_Count row).
Proof.
  unfold segment_customers.
  destruct (Z.leb_spec 5 (Order_Count row)), (Z.leb_spec 3 (Order_Count row)),
    (Z.leb_spec 2 (Order_Count row)); try lia;
    destruct (fge _ (quantile _ (3 # 4))), (fge _ (quantile _ (1 # 2)));
    cbn [andb]; (split; [simpl; tauto|]);
    repeat split; intros; try discriminate; try lia.
Qed.

(** ** Bounds of the quantile *)

Lemma sorted_nth_mono s i j :
  StronglySorted Qle s -> (i <= j)%nat -> (j < length s)%nat ->
  (nth i s 0 <= nth j s 0)%Q.
Proof.
  intros Hs. revert i j. induction Hs as [|a s Hs IH Hall]; intros i j Hij Hj.
  - simpl in Hj. lia.
  - destruct j as [|j]; [assert (i = 0%nat) as -> by lia; simpl; lra|].
    destruct i as [|i]; simpl.
    + rewrite Forall_forall in Hall. apply Hall, list_elem_of_In, nth_In.
      simpl in Hj. lia.
    + apply IH; simpl in Hj; lia.
Qed.

Lemma quantile_between l p :
  l <> [] -> (0 <= p)%Q -> (p <= 1)%Q ->
  exists q a b, quantile l p = Fin q /\ In a l /\ In b l
                /\ (a <= q)%Q /\ (q <= b)%Q.
Proof.
  intros Hl Hp0 Hp1. destruct l as [|x l]; [done|]. unfold quantile.
  set (n := Z.of_nat (length (x :: l))).
  set (pos := (inject_Z (n - 1) * p)%Q).
  set (lo := Qfloor pos). set (hi := Z.min (lo + 1) (n - 1)).
  assert (1 <= n) as Hn by (unfold n; simpl; lia).
  assert (0 <= inject_Z (n - 1))%Q as Hn1.
  { change 0%Q with (inject_Z 0). rewrite <- Zle_Qle. lia. }
  assert (0 <= pos)%Q as Hpos0 by (unfold pos; nra).
  assert (pos <= inject_Z (n - 1))%Q as Hpos1 by (unfold pos; nra).
  assert (0 <= lo) as Hlo0.
  { unfold lo. change 0 with (Qfloor 0). by apply Qfloor_resp_le. }
  assert (lo <= n - 1) as Hlo1.
  { unfold lo. rewrite <- (Qfloor_Z (n - 1)). by apply Qfloor_resp_le. }
  assert (0 <= pos - inject_Z lo)%Q as Hf0.
  { pose proof (Qfloor_le pos) as H. fold lo in H. lra. }
  assert (pos - inject_Z lo <= 1)%Q as Hf1.
  { pose proof (Qlt_floor pos) as Hlt. fold lo in Hlt.
    rewrite inject_Z_plus in Hlt. change (inject_Z 1) with 1%Q in Hlt. lra. }
  set (s := Qsort (x :: l)).
  assert (length s = length (x :: l)) as Hlen by apply Qsort_length.
  assert (Z.to_nat lo < length s)%nat as Hklo by (unfold n in *; lia).
  assert (Z.to_nat hi < length s)%nat as Hkhi by (unfold n, hi in *; lia).
  assert (nth (Z.to_nat lo) s 0 <= nth (Z.to_nat hi) s 0)%Q as Hab.
  { apply sorted_nth_mono; [apply Qsort_sorted|unfold hi; lia|done]. }
  exists (nth (Z.to_nat lo) s 0%Q
          + (nth (Z.to_nat hi) s 0%Q - nth (Z.to_nat lo) s 0%Q)
            * (pos - inject_Z lo))%Q,
         (nth (Z.to_nat lo) s 0%Q), (nth (Z.to_nat hi) s 0%Q).
  split; [reflexivity|].
  split; [eapply Permutation_in; [apply Qsort_perm|by apply nth_In]|].
  split; [eapply Permutation_in; [apply Qsort_perm|by apply nth_In]|].
  set (f := (pos - inject_Z lo)%Q) in *.
  set (a := nth (Z.to_nat lo) s 0%Q) in *.
  set (b := nth (Z.to_nat hi) s 0%Q) in *. clearbody f a b.
  assert (0 <= f * (b - a))%Q as H1 by (apply Qmult_le_0_compat; lra).
  assert (0 <= (1 - f) * (b - a))%Q as H2 by (apply Qmult_le_0_compat; lra).
  clear -H1 H2. split; lra.
Qed.

(** X20: For a non-empty series and 0 <= p <= 1 the linear-interpolation
    quantile is a number that lies between two values of the series. *)
Theorem quantile_within_values (l : list Q) (p : Q) :
  l <> [] -> (0 <= p)%Q -> (p <= 1)%Q ->
  exists q a b, quantile l p = Fin q /\ In a l /\ In b l
                /\ (a <= q)%Q /\ (q <= b)%Q.
Proof. apply quantile_between. Qed.

Lemma quantile_within_values_witness :
  exists q a b, quantile [10; 50; 200; 900]%Q (3 # 4) = Fin q
                /\ In a [10; 50; 200; 900]%Q /\ In b [10; 50; 200; 900]%Q
                /\ (a <= q)%Q /\ (q <= b)%Q.
Proof. apply quantile_within_values; [discriminate|lra|lra]. Defined.

Lemma top_spender_reaches (pop : list CustomerMetric) row p :
  (0 <= p)%Q -> (p <= 1)%Q ->
  In row pop ->
  (forall other, In other pop -> (Total_Spent other <= Total_Spent row)%Q) ->
  fge (Fin (Total_Spent row)) (quantile (map Total_Spent pop) p) = true.
Proof.
  intros Hp0 Hp1 Hin Hmax.
  destruct (quantile_between (map Total_Spent pop) p) as (q & a & b & -> & _ & Hb & _ & Hqb);
    [by destruct pop|done|done|].
  apply in_map_iff in Hb as (other & <- & Ho). specialize (Hmax other Ho).
  simpl. apply Qle_bool_iff. lra.
Qed.

(** X21: A customer whose total spent is the largest of the population is a VIP
    customer with 5 or more orders and a Loyal customer with 3 or 4 orders. *)
Theorem top_spender_segment (pop : list CustomerMetric) (row : CustomerMetric) :
  In row pop ->
  (forall other, In other pop -> (Total_Spent other <= Total_Spent row)%Q) ->
  (5 <= Order_Count row -> segment_customers pop row = "VIP Customers"%string)
  /\ (3 <= Order_Count row < 5 ->
      segment_customers pop row = "Loyal Customers"%string).
Proof.
  intros Hin Hmax. unfold segment_customers.
  rewrite (top_spender_reaches pop row (3 # 4)) by done.
  rewrite (top_spender_reaches pop row (1 # 2)) by done.
  split; intros H.
  - by destruct (Z.leb_spec 5 (Order_Count row)); [|lia].
  - destruct (Z.leb_spec 5 (Order_Count row)); [lia|].
    by destruct (Z.leb_spec 3 (Order_Count row)); [|lia].
Qed.

Lemma top_spender_segment_witness :
  segment_customers sample_population
    {| customer := "c4"; Total_Spent := 900; Avg_Order_Value := Fin 150;
       Order_Count := 6; Total_Quantity := 6 |}
  = "VIP Customers"%string.
Proof.
  refine (proj1 (top_spender_segment sample_population _ _ _) _).
  - right; right; right; left. reflexivity.
  - intros other [<-|[<-|[<-|[<-|[]]]]]; simpl; lra.
  - simpl. lia.
Defined.

(** * Rounding to two decimals *)



Lemma round2_is_cents (q : Q) : exists z, (round2 q == inject_Z z / 100)%Q.
Proof. eexists. unfold round2. reflexivity. Qed.


(** * Quantiles do not depend on the order of the values *)



Lemma count_le_all t l :
  (forall x, In x l -> (x <= t)%Q) -> count_le t l = length l.
Proof.
  induction l as [|x l IH]; intros H; [done|]. rewrite count_le_cons, IH.
  - assert (Qle_bool x t = true) as -> by (apply Qle_bool_iff, H; by left). done.
  - intros y Hy. apply H. by right.
Qed.

Lemma sorted_nth_of_counts l l' k :
  length l = length l' ->
  (forall t, count_le t l = count_le t l') ->
  (nth k (Qsort l) 0 == nth k (Qsort l') 0)%Q.
Proof.
  intros Hlen Hcount.
  destruct (Nat.lt_ge_cases k (length l)) as [Hk|Hk].
  - apply Qle_antisym.
    + apply sorted_nth_le_iff; [apply Qsort_sorted|by rewrite Qsort_length|].
      rewrite (count_le_perm _ _ _ (Qsort_perm l)), Hcount,
        <- (count_le_perm _ _ _ (Qsort_perm l')).
      apply sorted_nth_le_iff;
        [apply Qsort_sorted|rewrite Qsort_length; lia|apply Qle_refl].
    + apply sorted_nth_le_iff; [apply Qsort_sorted|rewrite Qsort_length; lia|].
      rewrite (count_le_perm _ _ _ (Qsort_perm l')), <- Hcount,
        <- (count_le_perm _ _ _ (Qsort_perm l)).
      apply sorted_nth_le_iff;
        [apply Qsort_sorted|by rewrite Qsort_length|apply Qle_refl].
  - rewrite !nth_overflow; [reflexivity|rewrite Qsort_length; lia|by rewrite Qsort_length].
Qed.

Lemma quantile_of_counts l l' p :
  length l = length l' ->
  (forall t, count_le t l = count_le t l') ->
  feq (quantile l p) (quantile l' p).
Proof.
  intros Hlen Hcount. unfold quantile.
  destruct l as [|x l], l' as [|x' l']; try done. rewrite <- Hlen. cbn [feq].
  set (lo := Qfloor _). set (hi := Z.min _ _).
  pose proof (sorted_nth_of_counts _ _ (Z.to_nat lo) Hlen Hcount) as Ha.
  pose proof (sorted_nth_of_counts _ _ (Z.to_nat hi) Hlen Hcount) as Hb.
  by rewrite Ha, Hb.
Qed.

(** X24: The quantile of a series does not depend on the order of its values. *)
Theorem quantile_permutation (l l' : list Q) (p : Q) :
  Permutation l l' -> feq (quantile l p) (quantile l' p).
Proof.
  intros H. apply quantile_of_counts.
  - by apply Permutation_length.
  - intros t. by apply count_le_perm.
Qed.

Lemma quantile_permutation_witness :
  feq (quantile [900; 10; 200; 50]%Q (3 # 4)) (quantile [10; 50; 200; 900]%Q (3 # 4)).
Proof.
  apply quantile_permutation.
  apply (Permutation_trans (l' := [10; 900; 200; 50]%Q)); [apply perm_swap|].
  apply perm_skip.
  apply (Permutation_trans (l' := [200; 900; 50]%Q)); [apply perm_swap|].
  apply (Permutation_trans (l' := [200; 50; 900]%Q));
    [apply perm_skip, perm_swap|apply perm_swap].
Defined.

(** * Prices in whole cents *)







(** * Segmentation on the totals the code computes *)

Lemma customer_metrics_exact data :
  customer_metrics data
  = customer_metrics_with (fun l => round2 (Qsum l))
      (fun l => fround2 (mean l)) data.
Proof. reflexivity. Qed.










(** * The executive summary *)

Lemma idxmax_from_spec best s :
  exists v, In (idxmax_from best s, v) (best :: s)
    /\ forall kv, In kv (best :: s) -> (snd kv <= v)%Q.
Proof.
  revert best. induction s as [|kv s IH]; intros best.
  - exists (snd best). split; [left; by destruct best|].
    intros kv [<-|[]]. apply Qle_refl.
  - cbn [idxmax_from]. destruct (Qle_bool (snd kv) (snd best)) eqn:E.
    + apply Qle_bool_iff in E. destruct (IH best) as (v & Hin & Hmax).
      exists v. split.
      * destruct Hin as [Hin|Hin]; [by left|by right; right].
      * intros x [<-|[<-|Hx]].
        -- apply Hmax. by left.
        -- eapply Qle_trans; [exact E|]. apply Hmax. by left.
        -- apply Hmax. by right.
    + apply Qle_bool_false in E. destruct (IH kv) as (v & Hin & Hmax).
      exists v. split; [by right|].
      intros x [<-|[<-|Hx]].
      * apply Qlt_le_weak. eapply Qlt_le_trans; [exact E|]. apply Hmax. by left.
      * apply Hmax. by left.
      * apply Hmax. by right.
Qed.

(** X26: idxmax raises ValueError exactly on an empty series; otherwise it
    returns a label of the series whose value is at least every value of the
    series. *)
Theorem idxmax_is_largest (s : list (string * Q)) :
  (idxmax s = inr ValueError <-> s = [])
  /\ forall k, idxmax s = inl k ->
       exists v, In (k, v) s /\ forall kv, In kv s -> (snd kv <= v)%Q.
Proof.
  destruct s as [|kv s]; simpl.
  - split; [done|]. discriminate.
  - split; [split; discriminate|]. intros k [= <-]. apply idxmax_from_spec.
Qed.

Lemma idxmax_is_largest_witness :
  exists v, In ("b"%string, v) [("a"%string, 1%Q); ("b"%string, 3%Q); ("c"%string, 3%Q)]
    /\ forall kv, In kv [("a"%string, 1%Q); ("b"%string, 3%Q); ("c"%string, 3%Q)] ->
         (snd kv <= v)%Q.
Proof.
  apply (proj2 (idxmax_is_largest
                  [("a"%string, 1%Q); ("b"%string, 3%Q); ("c"%string, 3%Q)])).
  reflexivity.
Defined.

Lemma groupby_sum_empty_iff key data :
  groupby_sum key data = [] <-> forall r, In r data -> key r = None.
Proof.
  unfold groupby_sum. split.
  - intros H r Hr. destruct (key r) as [k|] eqn:Hk; [|done].
    assert (In k (group_keys (map key data))) as Hin.
    { apply In_group_keys. rewrite <- Hk. by apply in_map. }
    destruct (group_keys (map key data)); [done|discriminate].
  - intros H. destruct (group_keys (map key data)) as [|k K] eqn:E; [done|].
    assert (In k (group_keys (map key data))) as Hin by (rewrite E; by left).
    apply In_group_keys, in_map_iff in Hin as (r & Hr & Hin).
    rewrite (H r Hin) in Hr. discriminate.
Qed.

Lemma value_counts_empty_iff col :
  value_counts col = [] <-> forall x, In x col -> x = None.
Proof.
  unfold value_counts. split.
  - intros H [k|] Hx; [|done].
    apply In_group_keys in Hx. destruct (group_keys col); [done|discriminate].
  - intros H. destruct (group_keys col) as [|k K] eqn:E; [done|].
    assert (In k (group_keys col)) as Hin by (rewrite E; by left).
    apply In_group_keys in Hin. by apply H in Hin.
Qed.

(** X27: The expressions of the executive summary evaluate without an exception
    exactly when some record has a division, some a weekday, some a main
    category and some a transaction type; when no record has a division the
    summary raises ValueError, also for a non-empty table. *)
Theorem executive_summary_raises data :
  ((exists s, executive_summary data = inl s) <->
   (exists r, In r data /\ division r <> None)
   /\ (exists r, In r data /\ weekday r <> None)
   /\ (exists r, In r data /\ main_category r <> None)
   /\ (exists r, In r data /\ trans_type r <> None))
  /\ ((forall r, In r data -> division r = None) ->
      executive_summary data = inr ValueError).
Proof.
  assert (forall key, (exists r, In r data /\ key r <> None)
                      <-> groupby_sum key data <> []) as Hg.
  { intros key. rewrite groupby_sum_empty_iff. split.
    - intros (r & Hr & Hk) H. by apply Hk, H.
    - intros H. destruct (existsb (fun r => has_value (key r)) data) eqn:E.
      + apply existsb_exists in E as (r & Hr & Hk). exists r. split; [done|].
        by destruct (key r).
      + exfalso. apply H. intros r Hr. destruct (key r) eqn:Hk; [|done].
        assert (existsb (fun r => has_value (key r)) data = true); [|congruence].
        apply existsb_exists. exists r. by rewrite Hk. }
  assert ((exists r, In r data /\ trans_type r <> None)
          <-> value_counts (map trans_type data) <> []) as Hv.
  { rewrite value_counts_empty_iff. split.
    - intros (r & Hr & Hk) H. apply Hk, H. by apply in_map.
    - intros H. destruct (existsb (fun r => has_value (trans_type r)) data) eqn:E.
      + apply existsb_exists in E as (r & Hr & Hk). exists r. split; [done|].
        by destruct (trans_type r).
      + exfalso. apply H. intros x (r & <- & Hr)%in_map_iff.
        destruct (trans_type r) eqn:Hk; [|done].
        assert (existsb (fun r => has_value (trans_type r)) data = true);
          [|congruence].
        apply existsb_exists. exists r. by rewrite Hk. }
  split.
  - rewrite (Hg division), (Hg weekday), (Hg main_category), Hv.
    unfold executive_summary, idxmax, mode0.
    destruct (groupby_sum division data), (groupby_sum weekday data),
      (groupby_sum main_category data), (value_counts (map trans_type data));
      split; try (intros [s Hs]; discriminate); try (intros (? & ? & ? & ?); done).
    + intros _. repeat split; discriminate.
    + intros _. by eexists.
  - intros H. apply groupby_sum_empty_iff in H. unfold executive_summary.
    by rewrite H.
Qed.

Lemma executive_summary_raises_witness :
  executive_summary rounding_data = inr ValueError.
Proof.
  apply (proj2 (executive_summary_raises rounding_data)).
  intros r Hr. repeat (destruct Hr as [<-|Hr]; [reflexivity|]). destruct Hr.
Defined.

(** * The control flow of main *)

Lemma series_min_None l : series_min l = None <-> forall x, In x l -> x = None.
Proof.
  unfold series_min. split.
  - intros H [x|] Hx; [|done]. apply In_omap_id in Hx.
    destruct (omap id l); [done|discriminate].
  - intros H. destruct (omap id l) as [|x r] eqn:E; [done|].
    assert (x ∈ omap id l) as Hx by (rewrite E; left).
    apply list_elem_of_omap in Hx as ([y|] & Hy & [= ->]).
    apply list_elem_of_In, H in Hy. discriminate.
Qed.

Lemma series_max_None l : series_max l = None <-> series_min l = None.
Proof. unfold series_max, series_min. by destruct (omap id l). Qed.

(** X28: From the filters on, main never reaches its 'No data available'
    message: when no filtered record has a date, in particular when the filters
    leave no record, the sidebar line that formats the minimum date raises
    ValueError before the branch on len(data); and when the dashboard branch is
    entered the filtered table has a dated record. *)
Theorem main_never_reports_no_data loaded date_range divisions payment_methods :
  main loaded date_range divisions payment_methods <> NoData
  /\ (forall data, loaded = Some data ->
        (forall r, In r (apply_filters date_range divisions payment_methods data) ->
                   date r = None) ->
        main loaded date_range divisions payment_methods = Raised ValueError)
  /\ (forall shown, main loaded date_range divisions payment_methods = Dashboard shown ->
        exists data, loaded = Some data
          /\ shown = apply_filters date_range divisions payment_methods data
          /\ exists r, In r shown /\ date r <> None).
Proof.
  unfold main. destruct loaded as [data|].
  2: { split; [done|]. split; [discriminate|discriminate]. }
  set (shown := apply_filters date_range divisions payment_methods data).
  destruct (series_min (map date shown)) as [lo|] eqn:Hlo.
  - assert (exists r, In r shown /\ date r <> None) as (r & Hr & Hd).
    { destruct (existsb has_date shown) eqn:E.
      - apply existsb_exists in E as (r & Hr & Hd). exists r. split; [done|].
        unfold has_date in Hd. by destruct (date r).
      - assert (series_min (map date shown) = None); [|congruence].
        apply series_min_None. intros x (r & <- & Hr)%in_map_iff.
        destruct (date r) eqn:Hd; [|done].
        assert (existsb has_date shown = true); [|congruence].
        apply existsb_exists. exists r. unfold has_date. by rewrite Hd. }
    destruct (series_max (map date shown)) as [hi|] eqn:Hhi;
      [|apply series_max_None in Hhi; congruence].
    assert ((0 <? length shown)%nat = true) as ->.
    { apply Nat.ltb_lt. destruct shown; [done|simpl; lia]. }
    split; [done|]. split.
    + intros d [= <-] Hall. by destruct (Hd (Hall r Hr)).
    + intros s [= <-]. exists data. split; [done|]. split; [done|]. by exists r.
  - split; [done|]. split; [done|]. discriminate.
Qed.

Lemma main_never_reports_no_data_witness :
  main (Some null_date_data) [5; 9] [] [] = Raised ValueError.
Proof.
  refine (proj1 (proj2 (main_never_reports_no_data (Some null_date_data)
                          [5; 9] [] [])) null_date_data eq_refl _).
  intros r [].
Defined.

(** * The launcher *)

Lemma install_loop_ok pip ps :
  fst (Launcher.install_loop pip ps) = true <-> forall p, In p ps -> pip p = true.
Proof.
  induction ps as [|p ps IH]; simpl; [split; [intros _ ? []|done]|].
  destruct (pip p) eqn:Hp.
  - destruct (Launcher.install_loop pip ps) as [ok ev]. simpl in *. rewrite IH.
    split; [intros H q [<-|Hq]; auto|intros H q Hq; apply H; by right].
  - simpl. split; [done|]. intros H. rewrite (H p) in Hp; [done|by left].
Qed.

Lemma install_loop_no_launch pip ps :
  ~ In Launcher.LaunchDashboard (snd (Launcher.install_loop pip ps)).
Proof.
  induction ps as [|p ps IH]; simpl; [tauto|].
  destruct (pip p).
  - destruct (Launcher.install_loop pip ps) as [ok ev]. simpl in *.
    intros [H|H]; [discriminate|done].
  - simpl. intros [H|[H|[]]]; discriminate.
Qed.

Lemma install_loop_attempted pip ps i p :
  ps !! i = Some p -> pip p = false ->
  (forall j q, (j < i)%nat -> ps !! j = Some q -> pip q = true) ->
  Launcher.install_loop pip ps
  = (false, map Launcher.Installing (take (S i) ps) ++ [Launcher.InstallError p]).
Proof.
  revert i. induction ps as [|q ps IH]; intros i Hi Hp Hbefore; [done|].
  destruct i as [|i]; simpl in Hi.
  - injection Hi as ->. simpl. by rewrite Hp.
  - cbn [Launcher.install_loop]. rewrite (Hbefore 0%nat q) by (done || lia).
    rewrite (IH i Hi Hp); [done|].
    intros j q' Hj Hq'. apply (Hbefore (S j)); [lia|done].
Qed.

Lemma attempted_installing ps e :
  Launcher.attempted (map Launcher.Installing ps ++ [Launcher.InstallError e]) = ps.
Proof.
  unfold Launcher.attempted. induction ps as [|p ps IH]; [done|].
  cbn. by rewrite IH.
Qed.

(** X29: install_requirements returns True exactly when every package installs;
    at the first package that fails it returns False, and the packages it ran
    pip for are those up to and including that one. *)
Theorem install_requirements_stops_at_first_failure (pip : string -> bool) :
  (fst (Launcher.install_requirements pip) = true
   <-> forall p, In p Launcher.packages -> pip p = true)
  /\ forall i p,
       Launcher.packages !! i = Some p -> pip p = false ->
       (forall j q, (j < i)%nat -> Launcher.packages !! j = Some q -> pip q = true) ->
       fst (Launcher.install_requirements pip) = false
       /\ Launcher.attempted (snd (Launcher.install_requirements pip))
          = take (S i) Launcher.packages.
Proof.
  split; [apply install_loop_ok|]. intros i p Hi Hp Hb.
  unfold Launcher.install_requirements.
  rewrite (install_loop_attempted pip _ i p Hi Hp Hb). split; [done|].
  apply attempted_installing.
Qed.

Lemma install_requirements_stops_at_first_failure_witness :
  Launcher.attempted
    (snd (Launcher.install_requirements
            (fun p => negb (String.eqb p "numpy==1.24.3"))))
  = ["streamlit==1.28.0"; "pandas==2.1.0"; "numpy==1.24.3"]%string.
Proof.
  refine (proj2 (proj2 (install_requirements_stops_at_first_failure _)
                   2%nat "numpy==1.24.3"%string _ _ _)).
  - reflexivity.
  - reflexivity.
  - intros j q Hj Hq. destruct j as [|[|j]]; [| |lia];
      vm_compute in Hq; injection Hq as <-; reflexivity.
Defined.

Lemma install_loop_events pip ps e :
  In e (snd (Launcher.install_loop pip ps)) ->
  exists p, e = Launcher.Installing p \/ e = Launcher.InstallError p.
Proof.
  induction ps as [|p ps IH]; simpl; [tauto|].
  destruct (pip p).
  - destruct (Launcher.install_loop pip ps) as [ok ev]. simpl in *.
    intros [<-|H]; [by exists p; left|by apply IH].
  - simpl. intros [<-|[<-|[]]]; exists p; tauto.
Qed.

(** X30: The launcher starts the dashboard exactly when ecommerce_dashboard.py
    exists, every package installs and input() at the prompt returns (it raises
    EOFError on a closed standard input and KeyboardInterrupt on an interrupt,
    and the dashboard is then not started), whether or not CSV files are
    missing; without the script it only reports that; a warning about missing
    CSV files lists exactly the missing ones, in the order of the list. *)
Theorem launcher_main_launches (path_exists pip : string -> bool)
    (input_returns : bool) :
  (In Launcher.LaunchDashboard (Launcher.main path_exists pip input_returns)
   <-> path_exists "ecommerce_dashboard.py" = true
       /\ (forall p, In p Launcher.packages -> pip p = true)
       /\ input_returns = true)
  /\ (path_exists "ecommerce_dashboard.py" = false ->
      Launcher.main path_exists pip input_returns = [Launcher.ScriptNotFound])
  /\ (forall files,
        In (Launcher.MissingCsv files)
           (Launcher.main path_exists pip input_returns) ->
        files <> []
        /\ files = List.filter (fun f => negb (path_exists f)) Launcher.csv_files).
Proof.
  unfold Launcher.main.
  destruct (path_exists "ecommerce_dashboard.py") eqn:Hs; cbn [negb].
  2: { split; [|split; [done|]].
       - split; [intros [H|[]]; discriminate|intros [? _]; discriminate].
       - intros files [H|[]]. discriminate. }
  pose proof (install_loop_ok pip Launcher.packages) as Hok.
  pose proof (install_loop_events pip Launcher.packages) as Hev.
  fold (Launcher.install_requirements pip) in *.
  destruct (Launcher.install_requirements pip) as [ok ev] eqn:Hi.
  simpl in Hok, Hev.
  set (missing := List.filter (fun f => negb (path_exists f)) Launcher.csv_files).
  set (tail := if ok
               then Launcher.PressEnter
                    :: (if input_returns then [Launcher.LaunchDashboard]
                        else [Launcher.InputRaised])
               else [Launcher.InstallationFailed]).
  assert (In Launcher.LaunchDashboard tail <-> ok = true /\ input_returns = true)
    as Htail.
  { subst tail. destruct ok, input_returns; simpl; split;
      try tauto; intuition discriminate. }
  assert (forall files, ~ In (Launcher.MissingCsv files) tail) as Hnm.
  { intros files. subst tail. destruct ok, input_returns; simpl;
      intuition discriminate. }
  split; [|split; [done|]].
  - rewrite <- Hok. split.
    + intros [H|H]%in_app_or.
      * exfalso. clearbody missing. destruct missing as [|f fs]; simpl in H;
          [done|]. destruct H as [H|[]]. discriminate.
      * apply in_app_or in H as [H|H].
        -- destruct (Hev _ H) as [p [Hp|Hp]]; discriminate.
        -- apply Htail in H as [-> ->]. done.
    + intros (_ & Ho & Hin). apply in_or_app. right. apply in_or_app. right.
      by apply Htail.
  - intros files [H|H]%in_app_or.
    + destruct missing as [|f fs] eqn:E; simpl in H; [done|].
      destruct H as [[= <-]|[]]. split; [discriminate|done].
    + apply in_app_or in H as [H|H].
      * destruct (Hev _ H) as [p [Hp|Hp]]; discriminate.
      * by destruct (Hnm files).
Qed.

(** X30, with the script present, every package installing and the prompt
    answered. *)
Lemma launcher_main_launches_witness :
  In Launcher.LaunchDashboard
     (Launcher.main (fun f => String.eqb f "ecommerce_dashboard.py")
                    (fun _ => true) true).
Proof.
  apply (proj1 (launcher_main_launches _ _ _)).
  split; [reflexivity|]. split; [done|reflexivity].
Defined.

(** * The theorems at concrete tables *)

Lemma NoDup_by_decision (l : list string) : bool_decide (NoDup l) = true -> NoDup l.
Proof. intros H. by apply bool_decide_eq_true in H. Qed.

Lemma fact_rows_never_dropped_witness :
  exists r, In r (comprehensive_data sample_tables)
    /\ fact_columns r = Build_FactRecord "P9" "C9" "T9" "I9" "S9" 1 7 7.
Proof.
  apply (proj1 (fact_rows_never_dropped sample_tables)).
  right. left. reflexivity.
Defined.

Lemma joined_attributes_witness :
  exists r, In r (comprehensive_data sample_tables)
    /\ name r = Some "Ann"%string.
Proof.
  eexists. split; [left; reflexivity|].
  refine (proj1 (joined_attributes sample_tables _ _ _ _ _ _ (or_introl eq_refl))
            (Build_CustomerDim "C1" "Ann") _ _).
  1-5: apply NoDup_by_decision; vm_compute; reflexivity.
  - left. reflexivity.
  - reflexivity.
Defined.

Lemma bank_name_never_None_literal_witness :
  Forall (fun r => bank_name r <> Some "None"%string)
         (comprehensive_data sample_tables).
Proof.
  apply Forall_forall. intros r Hr%list_elem_of_In.
  exact (proj1 (bank_name_never_None_literal sample_tables r Hr)).
Defined.

